(** * kimimaro.utility: cross sectional area annotation of skeletons

    A shallow embedding of [src/kimimaro/utility.py] (functions
    [find_objects], [cross_sectional_area] and [moving_average]) and the
    properties of it that the specification states.

    Conventions of the embedding:
    - Python exceptions are values of [Py.exn]; a computation that can raise
      is a [Py.result].
    - numpy arrays of integers are lists of [Z]; a Python dict is a [gmap].
    - floating point data (direction vectors, areas) is kept abstract: the
      development is parametric in the type of float rows and in the float
      operations, so that nothing is assumed about rounding. *)

From Stdlib Require Import ZArith Lia.
From stdpp Require Import base option list gmap strings.

(** ** Python values: exceptions, results, indexing *)

Module Py.

Inductive exn : Set := KeyError | IndexError | ValueError | AttributeError.

#[global] Instance exn_eq_dec : EqDecision exn.
Proof. solve_decision. Defined.

Inductive result (A : Type) : Type :=
| Raise (e : exn)
| Return (a : A).
Arguments Raise {A} e.
Arguments Return {A} a.

#[global] Instance result_ret : MRet result := @Return.
#[global] Instance result_bind : MBind result :=
  λ A B k r, match r with Raise e => Raise e | Return a => k a end.

(** [l[i]] on a Python list or on the first axis of a numpy array: negative
    indices count from the end, anything out of range raises. *)
Definition index {A} (l : list A) (i : Z) : result A :=
  let j := if (i <? 0)%Z then (i + Z.of_nat (length l))%Z else i in
  if (j <? 0)%Z then Raise IndexError
  else match l !! Z.to_nat j with
       | Some a => Return a
       | None => Raise IndexError
       end.

(** [d[k]] on a dict. *)
Definition getitem `{Countable K} {A} (d : gmap K A) (k : K) : result A :=
  match d !! k with
  | Some a => Return a
  | None => Raise KeyError
  end.

(** [l[n:]] and [l[:-n]] (for [0 < n]) on the first axis. *)
Definition slice_from {A} (n : Z) (l : list A) : list A := drop (Z.to_nat n) l.
Definition slice_upto_neg {A} (n : Z) (l : list A) : list A :=
  take (length l - Z.to_nat n) l.

(** [[x] * k]: a negative count gives the empty list. *)
Definition times {A} (x : A) (k : Z) : list A := replicate (Z.to_nat k) x.

(** [enumerate(l)] *)
Definition enumerate {A} (l : list A) : list (nat * A) := imap pair l.

(** A [for] loop whose body mutates a state and may raise: the loop stops at
    the first exception, and the state reached so far stays as it is. *)
Fixpoint for_each {X S} (body : X → S → S * option exn) (l : list X) (st : S)
  : S * option exn :=
  match l with
  | [] => (st, None)
  | x :: t =>
      match body x st with
      | (st', None) => for_each body t st'
      | stopped => stopped
      end
  end.

End Py.
Import Py.

(** ** Voxel coordinates *)

Definition coord : Type := Z * Z * Z.

Definition sub3 (a b : coord) : coord :=
  let '(ax, ay, az) := a in let '(bx, by_, bz) := b in
  (ax - bx, ay - by_, az - bz)%Z.

Definition add3 (a b : coord) : coord :=
  let '(ax, ay, az) := a in let '(bx, by_, bz) := b in
  (ax + bx, ay + by_, az + bz)%Z.

(** [t[::-1]] on a triple *)
Definition rev3 {A} (t : A * A * A) : A * A * A :=
  let '(a, b, c) := t in (c, b, a).

(** The three components of a coordinate. *)
Definition px (c : coord) : Z := c.1.1.
Definition py (c : coord) : Z := c.1.2.
Definition pz (c : coord) : Z := c.2.

(** ** The operations this file takes from its libraries *)

(** Rows of float arrays (one 3-vector per row) with numpy's operations on
    them: the cast of [dtype=float], row [+], row [-], [/ n], the cast
    [astype(np.float32)] of an integer row, and
    [normal /= np.linalg.norm(normal)]. *)
Class FloatRows (V : Type) : Type := {
  to_float : V → V;
  vadd : V → V → V;
  vsub : V → V → V;
  vdiv : V → Z → V;
  astype_float32 : coord → V;
  unit_length : V → V;
}.

(** Entries of the float32 array of areas: [np.zeros] fills it with
    [area_zero], and [is_zero a] is the test [a == 0]. *)
Class AreaValue (A : Type) : Type := {
  area_zero : A;
  is_zero : A → bool;
  is_zero_area_zero : is_zero area_zero = true;
}.

(** ** The rolling average of [moving_average] *)

Module Smoother.
Section MovingAverage.
Context `{FloatRows V}.

Fixpoint cumsum_from (acc : V) (a : list V) : list V :=
  match a with
  | [] => []
  | x :: t => let s := vadd acc (to_float x) in s :: cumsum_from s t
  end.

(** [np.cumsum(a, dtype=float, axis=0)] *)
Definition cumsum (a : list V) : list V :=
  match a with
  | [] => []
  | x :: t => to_float x :: cumsum_from (to_float x) t
  end.

(** [mirror = (len(a) - (len(a) - n + 1)) / 2]: the numerator is an integer
    and [/] is the true division, so [mirror != int(mirror)] holds exactly
    when the numerator is odd, and [int] truncates towards zero. *)
Definition mirror_numerator (len n : Z) : Z := (len - (len - n + 1))%Z.

Definition extra (len n : Z) : Z :=
  if (Z.rem (mirror_numerator len n) 2 =? 0)%Z then 0%Z else 1%Z.

Definition mirror (len n : Z) : Z := Z.quot (mirror_numerator len n) 2.

(** A Python list of rows as an argument of [np.concatenate] next to [a]:
    [a] has one row for each vector, so it is an array of two axes, and so
    is a non-empty list of rows; the empty list is an array of one axis, and
    [np.concatenate] raises a value error when its arguments do not all
    have the same number of axes. *)
Definition as_rows (l : list V) : result (list V) :=
  match l with
  | [] => Raise ValueError
  | _ :: _ => Return l
  end.

(** [np.concatenate([ [a[0]] * (mirror + extra), a, [a[-1]] * mirror ])] *)
Definition pad (a : list V) (n : Z) : result (list V) :=
  let len := Z.of_nat (length a) in
  first ← index a 0;
  last ← index a (-1);
  front ← as_rows (times first (mirror len n + extra len n));
  back ← as_rows (times last (mirror len n));
  mret (front ++ a ++ back).

(** [ret[n:] = ret[n:] - ret[:-n]] *)
Definition moving_sum (n : Z) (ret : list V) : list V :=
  take (Z.to_nat n) ret ++ zip_with vsub (slice_from n ret) (slice_upto_neg n ret).

Definition moving_average (a : list V) (n : Z) : result (list V) :=
  if (n <=? 0)%Z then Raise ValueError
  else if (n =? 1)%Z then Return a
  else
    padded ← pad a n;
    let ret := moving_sum n (cumsum padded) in
    mret (map (λ r, vdiv r n) (slice_from (n - 1) ret)).


End MovingAverage.
End Smoother.

(** ** Label volumes and the Region Locator, [find_objects] *)

Module Locator.

(** A numpy array of labels with three axes. [voxel] gives the label at an
    index (read only inside [shape]); [dtype_bool] is [labels.dtype == bool]
    ([True] reads as 1, [False] as 0) and [c_contiguous] is
    [labels.flags['C_CONTIGUOUS']]. *)
Record Volume : Type := {
  dtype_bool : bool;
  c_contiguous : bool;
  shape : coord;
  voxel : coord → Z;
}.

(** [labels.T]: the axes reversed. The transpose of a C ordered array is
    Fortran ordered; otherwise the flag of the view is of no consequence
    here and is the negation all the same. *)
Definition T (labels : Volume) : Volume :=
  {| dtype_bool := dtype_bool labels;
     c_contiguous := negb (c_contiguous labels);
     shape := rev3 (shape labels);
     voxel := λ c, voxel labels (rev3 c) |}.

(** All indices of an array of the given shape, in row-major order. *)
Definition indices (sh : coord) : list coord :=
  let '(sx, sy, sz) := sh in
  x ← seqZ 0 sx; y ← seqZ 0 sy; z ← seqZ 0 sz; [(x, y, z)].

(** [slice(start, stop)] and a tuple of three of them. *)
Definition slice : Type := Z * Z.
Definition slices : Type := slice * slice * slice.

Definition widen (s : slice) (i : Z) : slice :=
  (Z.min (fst s) i, Z.max (snd s) (i + 1)).

(** One more voxel of a label found at index [c]. *)
Definition extend (r : option slices) (c : coord) : option slices :=
  let '(x, y, z) := c in
  match r with
  | None => Some ((x, x + 1), (y, y + 1), (z, z + 1))%Z
  | Some (sx, sy, sz) => Some (widen sx x, widen sy y, widen sz z)
  end.

Definition region_of (labels : Volume) (l : Z) : option slices :=
  foldl (λ r c, if (voxel labels c =? l)%Z then extend r c else r)
        None (indices (shape labels)).

Definition max_label (labels : Volume) : Z :=
  foldr Z.max 0%Z (map (voxel labels) (indices (shape labels))).

(** Modelled from the spec: [scipy.ndimage.find_objects] is a library
    function, absent from the sources. Section 4.2 and 6 give its contract:
    for each label [L] in [[1, max_label]], in label order, either [None]
    (label absent) or the minimal bounding box of the voxels equal to [L],
    as one [slice(start, stop)] per axis. The result does not depend on the
    memory layout of its argument. *)
Definition ndimage_find_objects (labels : Volume) : list (option slices) :=
  map (region_of labels) (seqZ 1 (max_label labels)).

(** [find_objects] of the source. [slcs and slcs[::-1]] is [None] on [None]
    and the reversed tuple on a tuple (of three slices, hence not empty). *)
Definition find_objects (labels : Volume) : list (option slices) :=
  if c_contiguous labels then ndimage_find_objects labels
  else map (λ slcs, match slcs with
                    | None => None
                    | Some s => Some (rev3 s)
                    end)
           (ndimage_find_objects (T labels)).

(** The same array in the other memory layout. *)
Definition with_layout (c_order : bool) (labels : Volume) : Volume :=
  {| dtype_bool := dtype_bool labels;
     c_contiguous := c_order;
     shape := shape labels;
     voxel := voxel labels |}.

(** The voxels with label [l], in the order of the scan. *)
Definition voxels_of (labels : Volume) (l : Z) : list coord :=
  filter (λ c, voxel labels c = l) (indices (shape labels)).

(** The slice from the least to the greatest of [i0] and the elements of [l]. *)
Definition span (i0 : Z) (l : list Z) : slice := foldl widen (i0, i0 + 1)%Z l.

(** Modelled from the spec: [fastremap.renumber] is a library function,
    absent from the sources. Section 4.1 and 6: every id present in the
    volume is remapped to a dense positive integer starting at 1, the
    background 0 stays 0, and the returned mapping sends each original id
    of the volume to its dense id. Ids are numbered in the order in which
    the scan of the volume meets them. *)
Definition renumber_mapping (labels : Volume) : gmap Z Z :=
  foldl (λ (m : gmap Z Z) l,
           match m !! l with
           | Some _ => m
           | None => <[l := Z.of_nat (size m)]> m
           end)
        {[ 0%Z := 0%Z ]} (map (voxel labels) (indices (shape labels))).

Definition renumber (labels : Volume) : Volume * gmap Z Z :=
  let remapping := renumber_mapping labels in
  ({| dtype_bool := dtype_bool labels;
      c_contiguous := c_contiguous labels;
      shape := shape labels;
      voxel := λ c, default 0%Z (remapping !! voxel labels c) |},
   remapping).

End Locator.

(** ** Skeletons *)

Module Skel.

(** An entry of [skel.extra_attributes]. *)
Record Attribute : Type := {
  attr_id : string;
  data_type : string;
  num_components : Z;
}.

(** A [cloudvolume.Skeleton] with vertices in physical space (type [P]).
    The two per-vertex arrays are attributes that a skeleton has only once
    they have been assigned: [None] is the attribute being absent. *)
Record Skeleton (P A : Type) : Type := {
  id : Z;
  vertices : list P;
  edges : list (nat * nat);
  extra_attributes : list Attribute;
  cross_sectional_area : option (list A);
  cross_sectional_area_contacts : option (list Z);
}.
Arguments id {P A} _.
Arguments vertices {P A} _.
Arguments edges {P A} _.
Arguments extra_attributes {P A} _.
Arguments cross_sectional_area {P A} _.
Arguments cross_sectional_area_contacts {P A} _.

(** The argument [skeletons]: a dict (in insertion order), a list, or one
    skeleton. *)
Inductive Skeletons (P A : Type) : Type :=
| AsDict (d : list (Z * Skeleton P A))
| AsList (l : list (Skeleton P A))
| Single (s : Skeleton P A).
Arguments AsDict {P A} d.
Arguments AsList {P A} l.
Arguments Single {P A} s.

End Skel.

(** ** Bounding boxes and crops *)

Module Crop.
Import Locator.

(** Modelled from the spec: [cloudvolume.Bbox] and [Vec.clamp] are library
    code, absent from the sources. Section 4.3, step 2: a box of voxel
    indices with a lower and an (exclusive) upper corner, its voxel volume,
    [grow] by one voxel on every face and the clamp of a corner. *)
Record Bbox : Type := { minpt : coord; maxpt : coord }.

Definition from_slices (s : slices) : Bbox :=
  let '((x0, x1), (y0, y1), (z0, z1)) := s in
  {| minpt := (x0, y0, z0); maxpt := (x1, y1, z1) |}.

Definition to_slices (b : Bbox) : slices :=
  let '(x0, y0, z0) := minpt b in
  let '(x1, y1, z1) := maxpt b in
  ((x0, x1), (y0, y1), (z0, z1)).

Definition volume (b : Bbox) : Z :=
  let '(dx, dy, dz) := sub3 (maxpt b) (minpt b) in (dx * dy * dz)%Z.

Definition grow (b : Bbox) (n : Z) : Bbox :=
  {| minpt := sub3 (minpt b) (n, n, n); maxpt := add3 (maxpt b) (n, n, n) |}.

Definition clamp (val low high : coord) : coord :=
  let '(vx, vy, vz) := val in
  let '(lx, ly, lz) := low in
  let '(hx, hy, hz) := high in
  (Z.min (Z.max vx lx) hx, Z.min (Z.max vy ly) hy, Z.min (Z.max vz lz) hz).

(** The binary image of one object, [binimg]. *)
Record Mask : Type := { mshape : coord; mvoxel : coord → bool }.

(** A bound of [slice(start, stop)] on an axis of length [n]: a negative
    bound counts from the end, and both are clipped to the axis. *)
Definition clip (n i : Z) : Z :=
  if (i <? 0)%Z then Z.max 0 (i + n) else Z.min i n.

Definition slice_start (n : Z) (s : slice) : Z := clip n (fst s).
Definition slice_length (n : Z) (s : slice) : Z :=
  Z.max 0 (clip n (snd s) - clip n (fst s)).

(** [all_labels[slices] == label] *)
Definition crop_eq (all_labels : Volume) (s : slices) (label : Z) : Mask :=
  let '(nx, ny, nz) := shape all_labels in
  let '(sx, sy, sz) := s in
  let start := (slice_start nx sx, slice_start ny sy, slice_start nz sz) in
  {| mshape := (slice_length nx sx, slice_length ny sy, slice_length nz sz);
     mvoxel := λ c, (voxel all_labels (add3 c start) =? label)%Z |}.

End Crop.

(** ** The Cross-Section Orchestrator, [cross_sectional_area] *)

Module Annotate.
Import Locator Skel Crop Smoother.

(** The collaborators of the orchestrator, for vertices of type [P], an
    anisotropy of type [Aniso], float rows [V] and areas [A]:
    - [rasterize an p] is [(p / anisotropy).round().astype(int)] on one row;
    - [skeleton_paths vertices edges] is the list of paths that
      [skel.paths()] returns, which the vertices and the edges of the
      skeleton determine; an exception of the library call itself (it
      raises when an attribute listed in [extra_attributes] is absent from
      the skeleton) propagates and is outside the embedding;
    - [fill_voids] is [fill_voids.fill];
    - [xs3d binimg vert normal an] is [xs3d.cross_sectional_area] with
      [return_contact=True]: the area and the contact byte. *)
Class Collaborators (P Aniso V A : Type) : Type := {
  rasterize : Aniso → P → coord;
  skeleton_paths : list P → list (nat * nat) → list (list P);
  fill_voids : Mask → Mask;
  xs3d : Mask → coord → V → Aniso → A * Z;
}.

(** The entry that [cross_sectional_area] appends to [extra_attributes]. *)
Definition prop : Attribute :=
  {| attr_id := "cross_sectional_area"; data_type := "float32"; num_components := 1 |}.

Section Orchestrator.
Context {P Aniso V A : Type}.
Context `{!FloatRows V, !AreaValue A, !Collaborators P Aniso V A}.

(** The keyword arguments. [progress] has no effect on the result;
    [in_place] is taken at its default [False], so the volume of the caller
    is never written. *)
Record Options : Type := {
  anisotropy : Aniso;
  smoothing_window : Z;
  fill_holes : bool;
  repair_contacts : bool;
}.

(** The state of the loops over the paths of one skeleton: the two arrays,
    and the calls of the sampling primitive made so far (position and
    normal), oldest first. *)
Record Sampling : Type := {
  areas : list A;
  contacts : list Z;
  calls : list (coord * V);
}.

(** [{ tuple(v): i for i, v in enumerate(all_verts) }]: a later vertex
    replaces an earlier one at the same key. *)
Definition build_mapping (all_verts : list coord) : gmap coord nat :=
  foldl (λ (m : gmap coord nat) iv, <[iv.2 := iv.1]> m) ∅ (enumerate all_verts).

Definition any_lt (a b : coord) : bool :=
  let '(ax, ay, az) := a in let '(bx, by_, bz) := b in
  (ax <? bx)%Z || (ay <? by_)%Z || (az <? bz)%Z.

(** [np.any(vert < 0) or np.any(vert > shape)] *)
Definition outside (vert shape : coord) : bool :=
  any_lt vert (0, 0, 0)%Z || any_lt shape vert.

(** [areas[idx] == 0 or (repair_contacts and contacts[idx] > 0)];
    [contacts[idx]] is read only when the first two tests ask for it. *)
Definition wants_sample (repair : bool) (st : Sampling) (idx : nat) : result bool :=
  a ← index (areas st) (Z.of_nat idx);
  if is_zero a then mret true
  else if repair then c ← index (contacts st) (Z.of_nat idx); mret (0 <? c)%Z
  else mret false.

(** [areas[idx], contacts[idx] = xs3d.cross_sectional_area(...)]: the call,
    then the two stores from left to right. *)
Definition sample (opts : Options) (binimg : Mask) (vert : coord) (normal : V)
    (idx : nat) (st : Sampling) : Sampling * option exn :=
  let '(area, contact) := xs3d binimg vert normal (anisotropy opts) in
  let called := calls st ++ [(vert, normal)] in
  if decide (idx < length (areas st))%nat then
    let areas' := <[idx := area]> (areas st) in
    if decide (idx < length (contacts st))%nat then
      ({| areas := areas'; contacts := <[idx := contact]> (contacts st); calls := called |},
       None)
    else ({| areas := areas'; contacts := contacts st; calls := called |}, Some IndexError)
  else ({| areas := areas st; contacts := contacts st; calls := called |}, Some IndexError).

(** The body of [for i, vert in enumerate(path)]. *)
Definition visit (opts : Options) (binimg : Mask) (mapping : gmap coord nat)
    (normals : list V) (iv : nat * coord) (st : Sampling) : Sampling * option exn :=
  let '(i, vert) := iv in
  if outside vert (mshape binimg) then (st, None)
  else
    match getitem mapping vert with
    | Raise e => (st, Some e)
    | Return idx =>
        match index normals (Z.of_nat i) with
        | Raise e => (st, Some e)
        | Return normal =>
            match wants_sample (repair_contacts opts) st idx with
            | Raise e => (st, Some e)
            | Return true => sample opts binimg vert normal idx st
            | Return false => (st, None)
            end
        end
    end.

(** [(path / anisotropy).round().astype(int)], then [path -= roi.minpt]. *)
Definition to_crop (opts : Options) (origin : coord) (path : list P) : list coord :=
  map (λ p, sub3 (rasterize (anisotropy opts) p) origin) path.

(** [(path[1:] - path[:-1]).astype(np.float32)], the last row repeated, the
    rolling average, and every row scaled to unit length. *)
Definition path_normals (opts : Options) (path : list coord) : result (list V) :=
  let normals := map astype_float32 (zip_with sub3 (slice_from 1 path) (slice_upto_neg 1 path)) in
  last ← index normals (-1);
  normals ← moving_average (normals ++ [last]) (smoothing_window opts);
  mret (map unit_length normals).

(** The body of [for path in paths]. *)
Definition trace_path (opts : Options) (binimg : Mask) (origin : coord)
    (mapping : gmap coord nat) (path : list P) (st : Sampling) : Sampling * option exn :=
  let path := to_crop opts origin path in
  match path_normals opts path with
  | Raise e => (st, Some e)
  | Return normals => for_each (visit opts binimg mapping normals) (enumerate path) st
  end.

(** The loop [for skel_prop in skel.extra_attributes] and the append. *)
Definition needs_prop (attrs : list Attribute) : bool :=
  negb (existsb (λ a, String.eqb (attr_id a) "cross_sectional_area") attrs).

Definition with_prop (attrs : list Attribute) : list Attribute :=
  if needs_prop attrs then attrs ++ [prop] else attrs.

(** What one iteration of [for skel in iterator] leaves behind: the
    skeleton as it now is, the calls of the sampling primitive, and the
    exception if one was raised. *)
Record Outcome (S : Type) : Type := {
  after : S;
  sampled : list (coord * V);
  raised : option exn;
}.
Arguments after {S} _.
Arguments sampled {S} _.
Arguments raised {S} _.

Definition skipped (skel : Skeleton P A) : Outcome (Skeleton P A) :=
  {| after := skel; sampled := []; raised := None |}.

Definition fails (skel : Skeleton P A) (e : exn) : Outcome (Skeleton P A) :=
  {| after := skel; sampled := []; raised := Some e |}.

(** The two arrays at the start of the sampling: the attributes of the
    skeleton itself in repair mode, new arrays of zeros otherwise. *)
Definition initial_arrays (opts : Options) (skel : Skeleton P A) (n : nat)
  : result (list A * list Z) :=
  if repair_contacts opts then
    match cross_sectional_area skel with
    | None => Raise AttributeError
    | Some areas =>
        match cross_sectional_area_contacts skel with
        | None => Raise AttributeError
        | Some contacts => Return (areas, contacts)
        end
    end
  else Return (replicate n area_zero, replicate n 0%Z).

Definition set_arrays (skel : Skeleton P A) (attrs : list Attribute) (st : Sampling)
  : Skeleton P A :=
  {| id := id skel; vertices := vertices skel; edges := edges skel;
     extra_attributes := attrs;
     cross_sectional_area := Some (areas st);
     cross_sectional_area_contacts := Some (contacts st) |}.

(** [roi.grow(1)] and the clamp of [roi.minpt]. *)
Definition grown (roi : Bbox) : Bbox :=
  let roi := grow roi 1 in
  {| minpt := clamp (minpt roi) (0, 0, 0)%Z (maxpt roi); maxpt := maxpt roi |}.

(** [binimg], from the region as grown. *)
Definition binary_image (opts : Options) (all_labels : Volume) (label : Z)
    (roi : Bbox) : Mask :=
  let binimg := crop_eq all_labels (to_slices roi) label in
  if fill_holes opts then fill_voids binimg else binimg.

(** From [roi.grow(1)] to the end of the loop body, for a skeleton whose
    region [roi] has more than one voxel. In repair mode the arrays are the
    ones of the skeleton, so what was stored before an exception is in the
    skeleton; otherwise the arrays reach the skeleton only at the end. *)
Definition measure (opts : Options) (all_labels : Volume) (label : Z) (roi : Bbox)
    (skel : Skeleton P A) : Outcome (Skeleton P A) :=
  let roi := grown roi in
  let binimg := binary_image opts all_labels label roi in
  let all_verts := to_crop opts (minpt roi) (vertices skel) in
  let mapping := build_mapping all_verts in
  match initial_arrays opts skel (length all_verts) with
  | Raise e => fails skel e
  | Return (areas0, contacts0) =>
      let paths := skeleton_paths (vertices skel) (edges skel) in
      let st0 := {| areas := areas0; contacts := contacts0; calls := [] |} in
      match for_each (trace_path opts binimg (minpt roi) mapping) paths st0 with
      | (st, Some e) =>
          {| after := if repair_contacts opts
                      then set_arrays skel (extra_attributes skel) st else skel;
             sampled := calls st; raised := Some e |}
      | (st, None) =>
          {| after := set_arrays skel (with_prop (extra_attributes skel)) st;
             sampled := calls st; raised := None |}
      end
  end.

(** The head of the body of [for skel in iterator], up to
    [roi.volume() <= 1]: the label and the region of the skeleton.
    [Return None] is a [continue]. *)
Definition resolve_roi (all_labels : Volume) (remapping : gmap Z Z)
    (all_slices : list (option slices)) (skel : Skeleton P A)
  : result (option (Z * Bbox)) :=
  let label := if dtype_bool all_labels then 1%Z else id skel in
  if (label =? 0)%Z then Return None
  else
    label ← getitem remapping label;
    slices ← index all_slices (label - 1);
    match slices with
    | None => Return None
    | Some slices =>
        let roi := from_slices slices in
        if (volume roi <=? 1)%Z then Return None else Return (Some (label, roi))
    end.

(** The body of [for skel in iterator]. *)
Definition annotate_skeleton (opts : Options) (all_labels : Volume)
    (remapping : gmap Z Z) (all_slices : list (option slices))
    (skel : Skeleton P A) : Outcome (Skeleton P A) :=
  match resolve_roi all_labels remapping all_slices skel with
  | Raise e => fails skel e
  | Return None => skipped skel
  | Return (Some (label, roi)) => measure opts all_labels label roi skel
  end.

(** [for skel in iterator]: the skeletons are objects that the loop
    mutates, so after an exception the skeletons already visited keep what
    was written to them and the others are as they were. *)
Fixpoint annotate_all (opts : Options) (all_labels : Volume)
    (remapping : gmap Z Z) (all_slices : list (option slices))
    (skels : list (Skeleton P A)) : Outcome (list (Skeleton P A)) :=
  match skels with
  | [] => {| after := []; sampled := []; raised := None |}
  | skel :: rest =>
      let o := annotate_skeleton opts all_labels remapping all_slices skel in
      match raised o with
      | Some e => {| after := after o :: rest; sampled := sampled o; raised := Some e |}
      | None =>
          let os := annotate_all opts all_labels remapping all_slices rest in
          {| after := after o :: after os;
             sampled := sampled o ++ sampled os;
             raised := raised os |}
      end
  end.

(** [{ True: 1, False: 0, 1:1, 0:0 }]: [True] and [1] are the same key. *)
Definition bool_remapping : gmap Z Z := {[ 1%Z := 1%Z; 0%Z := 0%Z ]}.

Definition iterator (skeletons : Skeletons P A) : list (Skeleton P A) :=
  match skeletons with
  | AsDict d => map snd d
  | AsList l => l
  | Single s => [s]
  end.

(** The container with its skeletons as the loop left them. *)
Definition restore (skeletons : Skeletons P A) (skels : list (Skeleton P A))
  : Skeletons P A :=
  match skeletons with
  | AsDict d => AsDict (zip (map fst d) skels)
  | AsList _ => AsList skels
  | Single s => Single (default s (head skels))
  end.

Definition cross_sectional_area (all_labels : Volume) (skeletons : Skeletons P A)
    (opts : Options) : Outcome (Skeletons P A) :=
  let '(all_labels, remapping) :=
    if dtype_bool all_labels then (all_labels, bool_remapping)
    else renumber all_labels in
  let all_slices := find_objects all_labels in
  let o := annotate_all opts all_labels remapping all_slices (iterator skeletons) in
  {| after := restore skeletons (after o); sampled := sampled o; raised := raised o |}.

(** *** Notions used to state the properties of the loops *)

(** The state after the sampling primitive has been called for the vertex
    at [idx]: where [contacts] is too short the store into it raises and
    leaves it as it is, which is what [<[idx := _]>] does there. *)
Definition stored (opts : Options) (binimg : Mask) (vert : coord) (normal : V)
    (idx : nat) (st : Sampling)
  : Sampling :=
  let r := xs3d binimg vert normal (anisotropy opts) in
  {| areas := <[idx := r.1]> (areas st);
     contacts := <[idx := r.2]> (contacts st);
     calls := calls st ++ [(vert, normal)] |}.

(** The call [(vert, normal)] of the sampling primitive gave an area that
    is not zero. *)
Definition nonzero_sample (opts : Options) (binimg : Mask) (call : coord * V) : Prop :=
  is_zero (xs3d binimg call.1 call.2 (anisotropy opts)).1 = false.

(** No coordinate was sampled twice, and what each call returned is stored
    at the index that the map gives for its coordinate. *)
Definition once_each (opts : Options) (binimg : Mask) (mapping : gmap coord nat)
    (st : Sampling) : Prop :=
  NoDup (map fst (calls st)) ∧
  ∀ c n, (c, n) ∈ calls st →
    ∃ idx, mapping !! c = Some idx ∧
      areas st !! idx = Some (xs3d binimg c n (anisotropy opts)).1 ∧
      contacts st !! idx = Some (xs3d binimg c n (anisotropy opts)).2.

(** A coordinate that has not been sampled has a zero area at its index. *)
Definition unsampled_are_zero (mapping : gmap coord nat) (st : Sampling) : Prop :=
  ∀ c idx, mapping !! c = Some idx → c ∉ map fst (calls st) →
    ∃ a, areas st !! idx = Some a ∧ is_zero a = true.

(** The state in which the loop over the paths of a skeleton ends, and the
    exception if it ends by one; [areas0] and [contacts0] are the arrays at
    its start. *)
Definition sampling_run (opts : Options) (all_labels : Volume) (label : Z) (roi : Bbox)
    (skel : Skeleton P A) (areas0 : list A) (contacts0 : list Z)
  : Sampling * option exn :=
  let roi := grown roi in
  for_each
    (trace_path opts (binary_image opts all_labels label roi) (minpt roi)
       (build_mapping (to_crop opts (minpt roi) (vertices skel))))
    (skeleton_paths (vertices skel) (edges skel))
    {| areas := areas0; contacts := contacts0; calls := [] |}.

End Orchestrator.

Arguments Outcome V S : clear implicits.
Arguments after {V S} _.
Arguments sampled {V S} _.
Arguments raised {V S} _.

End Annotate.

(** ** A small instance, to run the functions on

    Vertices with integer physical coordinates, an integer anisotropy,
    integer direction rows and integer areas. The sampling primitive is 0 on
    a background voxel and otherwise counts the object's voxels in the
    plane [x = vert.x] of the crop; the contact byte has the bits of the
    faces of the crop that this voxel lies on. The paths are given. *)

Module Toy.
Import Locator Skel Crop Annotate.

Definition rows : FloatRows coord :=
  {| to_float := λ v, v;
     vadd := add3;
     vsub := sub3;
     vdiv := λ '(x, y, z) n, (x / n, y / n, z / n)%Z;
     astype_float32 := λ v, v;
     unit_length := λ v, v |}.

Definition area : AreaValue Z :=
  {| area_zero := 0%Z; is_zero := λ a, (a =? 0)%Z; is_zero_area_zero := eq_refl |}.

(** [round(a / b)] for [0 < b], halves to the even neighbour as numpy
    rounds them. *)
Definition round_div (a b : Z) : Z :=
  let q := ((2 * a + b) / (2 * b))%Z in
  if ((2 * a + b) mod (2 * b) =? 0)%Z && Z.odd q then (q - 1)%Z else q.

Definition plane_area (m : Mask) (vert : coord) : Z :=
  Z.of_nat (length (filter (λ c, c.1.1 = vert.1.1 ∧ mvoxel m c = true)
                           (indices (mshape m)))).

Definition face_bits (m : Mask) (vert : coord) : Z :=
  let '(x, y, z) := vert in
  let '(sx, sy, sz) := mshape m in
  ((if x =? 0 then 1 else 0) + (if x =? sx - 1 then 2 else 0)
   + (if y =? 0 then 4 else 0) + (if y =? sy - 1 then 8 else 0)
   + (if z =? 0 then 16 else 0) + (if z =? sz - 1 then 32 else 0))%Z.

Definition collaborators (paths : list (list coord)) : Collaborators coord coord coord Z :=
  {| rasterize := λ '(ax, ay, az) '(x, y, z),
       (round_div x ax, round_div y ay, round_div z az);
     skeleton_paths := λ _ _, paths;
     fill_voids := λ m, m;
     xs3d := λ m vert _ _,
       if mvoxel m vert then (plane_area m vert, face_bits m vert) else (0%Z, 0%Z) |}.

(** A 4 x 3 x 3 volume, C ordered, whose voxels with [x < 3] carry the
    label 5; the rest is background. *)
Definition block : Volume :=
  {| dtype_bool := false; c_contiguous := true; shape := (4, 3, 3)%Z;
     voxel := λ '(x, y, z), if (x <? 3)%Z then 5%Z else 0%Z |}.

Definition options (an : coord) (window : Z) (repair : bool) : Options (Aniso := coord) :=
  {| anisotropy := an; smoothing_window := window;
     fill_holes := false; repair_contacts := repair |}.

Definition skeleton (label : Z) (verts : list coord) (areas : option (list Z))
    (contacts : option (list Z)) : Skeleton coord Z :=
  {| id := label; vertices := verts; edges := [];
     extra_attributes := [];
     Skel.cross_sectional_area := areas;
     cross_sectional_area_contacts := contacts |}.

(** [cross_sectional_area] on this instance. *)
Definition run (paths : list (list coord)) (labels : Volume)
    (skeletons : Skeletons coord Z) (an : coord) (window : Z) (repair : bool)
  : Outcome coord (Skeletons coord Z) :=
  @cross_sectional_area coord coord coord Z rows area (collaborators paths)
    labels skeletons (options an window repair).

(** The body of the loop over the skeletons, on [block] as renumbered. *)
Definition annotate (paths : list (list coord)) (an : coord) (window : Z)
    (repair : bool) (skel : Skeleton coord Z) : Outcome coord (Skeleton coord Z) :=
  @annotate_skeleton coord coord coord Z rows area (collaborators paths)
    (options an window repair) (renumber block).1 (renumber block).2
    (find_objects (renumber block).1) skel.

(** The region of the label 5 of [block], which [renumber] makes label 1. *)
Definition block_roi : Bbox := {| minpt := (0, 0, 0)%Z; maxpt := (3, 3, 3)%Z |}.

Definition unit_spacing : coord := (1, 1, 1)%Z.

(** Three vertices in a line inside the object. *)
Definition line : list coord := [(0, 1, 1); (1, 1, 1); (2, 1, 1)]%Z.

(** Six vertices at a spacing of 4: the vertices 0 and 2 rasterize to the
    voxel (1, 1, 1), and the vertices 3 and 5 to (3, 1, 1), which is
    background. *)
Definition spacing4 : coord := (4, 4, 4)%Z.
Definition forked : list coord :=
  [(4, 4, 4); (8, 4, 4); (5, 4, 4); (12, 4, 4); (8, 8, 4); (13, 4, 4)]%Z.
Definition forked_paths : list (list coord) :=
  [[(4, 4, 4); (8, 4, 4); (12, 4, 4)]; [(5, 4, 4); (8, 8, 4); (13, 4, 4)]]%Z.

(** Four vertices at a spacing of 4, all inside the object: the vertices 0
    and 2 rasterize to the voxel (1, 1, 1). *)
Definition paired : list coord := [(4, 4, 4); (8, 4, 4); (5, 4, 4); (8, 8, 4)]%Z.
Definition paired_paths : list (list coord) :=
  [[(4, 4, 4); (8, 4, 4)]; [(5, 4, 4); (8, 8, 4)]]%Z.

End Toy.

(** * Properties *)

(** ** Python lists *)

Section PyFacts.
Context {A : Type}.
Implicit Types (l : list A).

Lemma index_0 (x : A) l : index (x :: l) 0 = Return x.
Proof. reflexivity. Qed.

Lemma index_nil (i : Z) : index (@nil A) i = Raise IndexError.
Proof.
  unfold index. simpl. destruct (i <? 0)%Z eqn:E.
  - rewrite Z.add_0_r, E. reflexivity.
  - rewrite E. reflexivity.
Qed.

Lemma index_last_is_Return l : l ≠ [] → ∃ x, index l (-1) = Return x.
Proof.
  intros Hl. unfold index. simpl.
  assert (0 < length l)%nat by (destruct l; [done | simpl; lia]).
  destruct (_ <? 0)%Z eqn:E; [apply Z.ltb_lt in E; lia |].
  destruct (l !! _) eqn:El; [eauto |].
  apply lookup_ge_None in El. lia.
Qed.

Lemma index_of_nat l (i : nat) :
  index l (Z.of_nat i) = match l !! i with Some x => Return x | None => Raise IndexError end.
Proof.
  unfold index.
  destruct (Z.ltb_spec (Z.of_nat i) 0) as [?|_]; [lia|].
  destruct (Z.ltb_spec (Z.of_nat i) 0) as [?|_]; [lia|].
  by rewrite Nat2Z.id.
Qed.

Lemma for_each_app {X S} (body : X → S → S * option exn) (l1 l2 : list X) (st : S) :
  for_each body (l1 ++ l2) st =
  match for_each body l1 st with
  | (st', None) => for_each body l2 st'
  | stopped => stopped
  end.
Proof.
  revert st. induction l1 as [|x l1 IH]; intros st; simpl; [done|].
  destruct (body x st) as [st' [e|]]; [done | apply IH].
Qed.

(** An invariant of the state that every iteration keeps, whether it
    raises or not, holds when the loop is left. *)
Lemma for_each_invariant {X S} (body : X → S → S * option exn) (I : S → Prop)
    (l : list X) (st : S) :
  (∀ x s, x ∈ l → I s → I (body x s).1) → I st → I (for_each body l st).1.
Proof.
  revert st. induction l as [|x l IH]; intros st Hbody Hst; simpl; [done|].
  pose proof (Hbody x st ltac:(left) Hst) as Hx.
  destruct (body x st) as [st' [e|]]; simpl in *; [done|].
  apply IH; [|done]. intros y s Hy. apply Hbody. by right.
Qed.

Lemma elem_of_map {B} (f : A → B) l (y : B) :
  y ∈ map f l ↔ ∃ x, y = f x ∧ x ∈ l.
Proof.
  induction l as [|x l IH]; simpl.
  - split; [intros Hy; by apply elem_of_nil in Hy | intros (x & _ & Hx); by apply elem_of_nil in Hx].
  - rewrite elem_of_cons, IH. split.
    + intros [->|(x' & -> & Hx')]; [exists x; split; [done | by left] | exists x'; split; [done | by right]].
    + intros (x' & -> & Hx'). apply elem_of_cons in Hx' as [->|Hx']; [by left | right; by exists x'].
Qed.

End PyFacts.

(** ** The rolling average *)

Section SmootherFacts.
Import Smoother.
Context `{FloatRows V}.
Implicit Types (a : list V) (n : Z).

Lemma length_cumsum_from acc a : length (cumsum_from acc a) = length a.
Proof.
  revert acc. induction a as [|x a IH]; intros acc; simpl; [done | by rewrite IH].
Qed.

Lemma length_cumsum a : length (cumsum a) = length a.
Proof. destruct a; simpl; [done | by rewrite length_cumsum_from]. Qed.

Lemma length_moving_sum n a : length (moving_sum n a) = length a.
Proof.
  unfold moving_sum, slice_from, slice_upto_neg.
  rewrite length_app, length_zip_with, length_take, length_drop, length_take.
  lia.
Qed.

(** The padding counts in closed form: [n - 1] elements are added in all,
    the odd one in front. *)
Lemma mirror_extra_closed len n :
  (1 ≤ n)%Z →
  mirror len n = ((n - 1) / 2)%Z ∧ extra len n = ((n - 1) mod 2)%Z ∧
  (0 ≤ mirror len n)%Z ∧ (2 * mirror len n + extra len n = n - 1)%Z.
Proof.
  intros Hn. unfold mirror, extra, mirror_numerator.
  replace (len - (len - n + 1))%Z with (n - 1)%Z by lia.
  rewrite Z.quot_div_nonneg, Z.rem_mod_nonneg by lia.
  pose proof (Z.div_mod (n - 1) 2 ltac:(lia)).
  pose proof (Z.mod_pos_bound (n - 1) 2 ltac:(lia)).
  assert (0 ≤ (n - 1) / 2)%Z by (apply Z.div_pos; lia).
  destruct (Z.eqb_spec ((n - 1) mod 2) 0) as [E|E]; repeat split; lia.
Qed.

Lemma moving_average_nonpositive a n :
  (n ≤ 0)%Z → moving_average a n = Raise ValueError.
Proof.
  intros Hn. unfold moving_average.
  destruct (Z.leb_spec n 0); [done | lia].
Qed.

Lemma moving_average_1 a : moving_average a 1 = Return a.
Proof. reflexivity. Qed.

Lemma as_rows_times (x : V) (k : Z) :
  as_rows (times x k) = if decide (1 ≤ k)%Z then Return (times x k) else Raise ValueError.
Proof.
  unfold times. case_decide.
  - destruct (Z.to_nat k) eqn:E; [lia | done].
  - by replace (Z.to_nat k) with 0%nat by lia.
Qed.

(** With a window of 2 there is no row to add behind the input: the third
    argument of [np.concatenate] is the empty list. *)
Lemma moving_average_two a : a ≠ [] → moving_average a 2 = Raise ValueError.
Proof.
  intros Ha. destruct (index_last_is_Return a Ha) as [last Hlast].
  destruct a as [|first a]; [done|].
  destruct (mirror_extra_closed (Z.of_nat (length (first :: a))) 2 ltac:(lia))
    as (Hm & He & _).
  change ((2 - 1) / 2)%Z with 0%Z in Hm. change ((2 - 1) mod 2)%Z with 1%Z in He.
  unfold moving_average, pad. rewrite index_0, Hlast, Hm, He. reflexivity.
Qed.

Lemma pad_returns a n first last :
  (3 ≤ n)%Z → index a 0 = Return first → index a (-1) = Return last →
  pad a n =
  Return (times first (mirror (Z.of_nat (length a)) n + extra (Z.of_nat (length a)) n)
            ++ a ++ times last (mirror (Z.of_nat (length a)) n)).
Proof.
  intros Hn Hf Hl.
  destruct (mirror_extra_closed (Z.of_nat (length a)) n ltac:(lia))
    as (_ & He & Hm & Hsum).
  pose proof (Z.mod_pos_bound (n - 1) 2 ltac:(lia)) as Hmod. rewrite <-He in Hmod.
  unfold pad. rewrite Hf, Hl. cbn [mbind result_bind].
  rewrite !as_rows_times, !decide_True by lia. reflexivity.
Qed.

Lemma moving_average_unfold a n first last :
  (3 ≤ n)%Z → index a 0 = Return first → index a (-1) = Return last →
  moving_average a n =
  Return (map (λ r, vdiv r n)
    (slice_from (n - 1)
      (moving_sum n
        (cumsum (times first (mirror (Z.of_nat (length a)) n + extra (Z.of_nat (length a)) n)
                   ++ a ++ times last (mirror (Z.of_nat (length a)) n)))))).
Proof.
  intros Hn Hf Hl. unfold moving_average.
  destruct (Z.leb_spec n 0); [lia|].
  destruct (Z.eqb_spec n 1); [lia|].
  by rewrite (pad_returns a n first last).
Qed.

(** The output is as long as the input, for a window of 1 and for every
    window of 3 or more (also one that is wider than the input). *)
Lemma moving_average_length a n :
  a ≠ [] → (1 ≤ n)%Z → n ≠ 2%Z →
  ∃ out, moving_average a n = Return out ∧ length out = length a.
Proof.
  intros Ha Hn Hn2.
  destruct (decide (n = 1%Z)) as [->|Hn1]; [by exists a|].
  destruct (index_last_is_Return a Ha) as [last Hlast].
  destruct a as [|first a]; [done|].
  eexists. split.
  { apply (moving_average_unfold _ n first last); [lia | done | done]. }
  destruct (mirror_extra_closed (Z.of_nat (length (first :: a))) n Hn)
    as (_ & _ & Hm & Hsum).
  set (m := mirror _ n) in *. set (e := extra _ n) in *.
  rewrite length_map. unfold slice_from. rewrite length_drop, length_moving_sum.
  rewrite length_cumsum. unfold times.
  rewrite !length_app, !length_replicate.
  assert (0 ≤ e)%Z by (unfold e, extra; destruct (_ =? _)%Z; lia).
  lia.
Qed.

End SmootherFacts.

(** C8 (what the code does). With a window of 2, which is in the range
    [1 ≤ n ≤ N] for every input of [N ≥ 2] vectors, the rolling average
    returns no sequence at all: [mirror] is 0 and [extra] is 1, so the
    list of the rows to add behind the input is empty, and
    [np.concatenate] raises a value error. *)
Theorem moving_average_window_two_raises `{FloatRows V} (a : list V) :
  (1 ≤ length a)%nat →
  Smoother.mirror (Z.of_nat (length a)) 2 = 0%Z ∧
  Smoother.extra (Z.of_nat (length a)) 2 = 1%Z ∧
  Smoother.moving_average a 2 = Raise ValueError.
Proof.
  intros HN.
  assert (a ≠ []) as Ha by (destruct a; [simpl in HN; lia | done]).
  destruct (mirror_extra_closed (Z.of_nat (length a)) 2 ltac:(lia)) as (Hm & He & _).
  split; [exact Hm|]. split; [exact He|]. by apply moving_average_two.
Qed.

(** A run of C8: three rows and a window of 2. *)
Lemma moving_average_window_two_raises_witness :
  Smoother.moving_average (H := Toy.rows) [(1, 0, 0); (0, 1, 0); (0, 0, 1)]%Z 2
  = Raise ValueError.
Proof.
  apply (moving_average_window_two_raises (H := Toy.rows)
           [(1, 0, 0); (0, 1, 0); (0, 0, 1)]%Z).
  simpl. lia.
Defined.

(** ** The Region Locator *)

Section LocatorFacts.
Import Locator.

Lemma rev3_involutive {A} (t : A * A * A) : rev3 (rev3 t) = t.
Proof. by destruct t as [[a b] c]. Qed.

Lemma elem_of_indices (c sh : coord) :
  c ∈ indices sh ↔
  (0 ≤ px c < px sh)%Z ∧ (0 ≤ py c < py sh)%Z ∧ (0 ≤ pz c < pz sh)%Z.
Proof.
  destruct c as [[x y] z], sh as [[sx sy] sz]. unfold indices, px, py, pz. simpl.
  split.
  - intros Hc.
    apply list_elem_of_bind in Hc as (x' & Hc & Hx).
    apply list_elem_of_bind in Hc as (y' & Hc & Hy).
    apply list_elem_of_bind in Hc as (z' & Hc & Hz).
    apply list_elem_of_singleton in Hc. inversion Hc; subst.
    apply elem_of_seqZ in Hx, Hy, Hz. lia.
  - intros (Hx & Hy & Hz).
    apply list_elem_of_bind. exists x. split; [|apply elem_of_seqZ; lia].
    apply list_elem_of_bind. exists y. split; [|apply elem_of_seqZ; lia].
    apply list_elem_of_bind. exists z. split; [|apply elem_of_seqZ; lia].
    by apply list_elem_of_singleton.
Qed.

Lemma elem_of_indices_rev3 (c sh : coord) :
  c ∈ indices (rev3 sh) ↔ rev3 c ∈ indices sh.
Proof.
  rewrite !elem_of_indices.
  destruct c as [[x y] z], sh as [[sx sy] sz]. unfold px, py, pz. simpl. lia.
Qed.

Lemma foldl_if_filter {X R} (P : X → Prop) `{∀ x, Decision (P x)}
    (b : X → bool) (f : R → X → R) (r : R) (l : list X) :
  (∀ x, b x = true ↔ P x) →
  foldl (λ r x, if b x then f r x else r) r l = foldl f r (filter P l).
Proof.
  intros Hb. revert r. induction l as [|x l IH]; intros r; simpl; [done|].
  rewrite filter_cons. destruct (decide (P x)) as [HP|HP].
  - apply Hb in HP. rewrite HP. simpl. apply IH.
  - destruct (b x) eqn:E; [by apply Hb in E|]. apply IH.
Qed.

Lemma region_of_voxels labels l :
  region_of labels l = foldl extend None (voxels_of labels l).
Proof.
  unfold region_of, voxels_of. apply foldl_if_filter.
  intros c. apply Z.eqb_eq.
Qed.

Lemma elem_of_voxels_of_T labels l c :
  c ∈ voxels_of (T labels) l ↔ rev3 c ∈ voxels_of labels l.
Proof.
  unfold voxels_of. rewrite !list_elem_of_filter. simpl.
  by rewrite elem_of_indices_rev3.
Qed.

(** The box of a non-empty list of voxels, axis by axis. *)
Lemma foldl_extend_Some (sx sy sz : slice) (cs : list coord) :
  foldl extend (Some (sx, sy, sz)) cs =
  Some (foldl widen sx (map px cs), foldl widen sy (map py cs),
        foldl widen sz (map pz cs)).
Proof.
  revert sx sy sz. induction cs as [|[[x y] z] cs IH]; intros sx sy sz; [done|].
  simpl. apply IH.
Qed.

Lemma foldl_extend_cons (c : coord) (cs : list coord) :
  foldl extend None (c :: cs) =
  Some (span (px c) (map px cs), span (py c) (map py cs), span (pz c) (map pz cs)).
Proof. destruct c as [[x y] z]. simpl. apply foldl_extend_Some. Qed.

(** [foldl widen] computes the least index and the greatest index plus 1. *)
Lemma foldl_widen_spec (s : slice) (l : list Z) :
  let r := foldl widen s l in
  ((r.1 ≤ s.1)%Z ∧ (∀ i, i ∈ l → (r.1 ≤ i)%Z) ∧ (r.1 = s.1 ∨ r.1 ∈ l)) ∧
  ((s.2 ≤ r.2)%Z ∧ (∀ i, i ∈ l → (i + 1 ≤ r.2)%Z) ∧
   (r.2 = s.2 ∨ ∃ i, i ∈ l ∧ r.2 = (i + 1)%Z)).
Proof.
  revert s. induction l as [|j l IH]; intros s; simpl.
  { repeat split; try lia; try (intros i Hi; by apply elem_of_nil in Hi); by left. }
  destruct (IH (widen s j)) as ((Hle & Hlow & Hmin) & (Hge & Hup & Hmax)).
  change ((widen s j).1) with (Z.min s.1 j) in *.
  change ((widen s j).2) with (Z.max s.2 (j + 1)) in *.
  split; repeat split.
  - lia.
  - intros i Hi. apply elem_of_cons in Hi as [->|Hi]; [lia | by apply Hlow].
  - destruct Hmin as [Hmin|Hmin]; [|right; by right].
    destruct (Z.min_spec s.1 j) as [[_ E]|[_ E]]; rewrite E in Hmin.
    + by left.
    + right. rewrite Hmin. by left.
  - lia.
  - intros i Hi. apply elem_of_cons in Hi as [->|Hi]; [lia | by apply Hup].
  - destruct Hmax as [Hmax|(i & Hi & Hmax)].
    + destruct (Z.max_spec s.2 (j + 1)) as [[_ E]|[_ E]]; rewrite E in Hmax.
      * right. exists j. split; [by left | done].
      * by left.
    + right. exists i. split; [by right | done].
Qed.

Lemma span_spec (i0 : Z) (l : list Z) :
  let r := span i0 l in
  ((∀ i, i ∈ i0 :: l → (r.1 ≤ i)%Z) ∧ r.1 ∈ i0 :: l) ∧
  ((∀ i, i ∈ i0 :: l → (i + 1 ≤ r.2)%Z) ∧ ∃ i, i ∈ i0 :: l ∧ r.2 = (i + 1)%Z).
Proof.
  destruct (foldl_widen_spec (i0, i0 + 1)%Z l) as ((Hle & Hlow & Hmin) & (Hge & Hup & Hmax)).
  fold (span i0 l) in *. simpl in *. split; split.
  - intros i Hi. apply elem_of_cons in Hi as [->|Hi]; [done | by apply Hlow].
  - destruct Hmin as [->|Hmin]; [by left | by right].
  - intros i Hi. apply elem_of_cons in Hi as [->|Hi]; [done | by apply Hup].
  - destruct Hmax as [Hmax|(i & Hi & Hmax)].
    + exists i0. split; [by left | done].
    + exists i. split; [by right | done].
Qed.

(** The span of a list depends on its set of elements only. *)
Lemma span_ext (i0 j0 : Z) (l l' : list Z) :
  (∀ i, i ∈ i0 :: l ↔ i ∈ j0 :: l') → span i0 l = span j0 l'.
Proof.
  intros Hset.
  destruct (span_spec i0 l) as ((Hlow & Hmin) & (Hup & (i & Hi & Hmax))).
  destruct (span_spec j0 l') as ((Hlow' & Hmin') & (Hup' & (i' & Hi' & Hmax'))).
  destruct (span i0 l) as [a b], (span j0 l') as [a' b']. simpl in *.
  f_equal.
  - apply Z.le_antisymm; [apply Hlow, Hset, Hmin' | apply Hlow', Hset, Hmin].
  - apply Hset in Hi. apply Hset in Hi'.
    pose proof (Hup' i Hi). pose proof (Hup i' Hi'). lia.
Qed.

(** Lists of voxels that are each other's image under the reversal of the
    axes have boxes that are each other's reversal. *)
Lemma box_rev3 (cs cs' : list coord) :
  (∀ c, c ∈ cs' ↔ rev3 c ∈ cs) →
  foldl extend None cs' =
  match foldl extend None cs with None => None | Some s => Some (rev3 s) end.
Proof.
  intros Hset.
  assert (∀ c, c ∈ cs ↔ rev3 c ∈ cs') as Hset'.
  { intros c. by rewrite Hset, rev3_involutive. }
  destruct cs as [|c cs], cs' as [|c' cs'].
  - done.
  - exfalso. eapply elem_of_nil, Hset. left.
  - exfalso. eapply elem_of_nil, Hset'. left.
  - rewrite !foldl_extend_cons. simpl. do 2 f_equal; [f_equal|].
    + apply span_ext. intros i.
      change (?f c' :: map ?f cs') with (map f (c' :: cs')).
      change (?f c :: map ?f cs) with (map f (c :: cs)).
      rewrite !elem_of_map. split.
      * intros ([[x y] z] & -> & Hc). apply Hset in Hc. by exists (z, y, x).
      * intros ([[x y] z] & -> & Hc). apply Hset' in Hc. by exists (z, y, x).
    + apply span_ext. intros i.
      change (?f c' :: map ?f cs') with (map f (c' :: cs')).
      change (?f c :: map ?f cs) with (map f (c :: cs)).
      rewrite !elem_of_map. split.
      * intros ([[x y] z] & -> & Hc). apply Hset in Hc. by exists (z, y, x).
      * intros ([[x y] z] & -> & Hc). apply Hset' in Hc. by exists (z, y, x).
    + apply span_ext. intros i.
      change (?f c' :: map ?f cs') with (map f (c' :: cs')).
      change (?f c :: map ?f cs) with (map f (c :: cs)).
      rewrite !elem_of_map. split.
      * intros ([[x y] z] & -> & Hc). apply Hset in Hc. by exists (z, y, x).
      * intros ([[x y] z] & -> & Hc). apply Hset' in Hc. by exists (z, y, x).
Qed.

Lemma region_of_T labels l :
  region_of (T labels) l =
  match region_of labels l with None => None | Some s => Some (rev3 s) end.
Proof.
  rewrite !region_of_voxels. apply box_rev3.
  intros c. apply elem_of_voxels_of_T.
Qed.

(** The greatest element of a list, and 0 for none, depends on the set of
    elements only. *)
Lemma foldr_max_spec (l : list Z) :
  let m := foldr Z.max 0%Z l in
  (0 ≤ m)%Z ∧ (∀ i, i ∈ l → (i ≤ m)%Z) ∧ (m = 0%Z ∨ m ∈ l).
Proof.
  induction l as [|j l (H0 & Hup & Hin)]; simpl.
  { repeat split; [done | intros i Hi; by apply elem_of_nil in Hi | by left]. }
  repeat split.
  - lia.
  - intros i Hi. apply elem_of_cons in Hi as [->|Hi]; [lia|].
    specialize (Hup i Hi). lia.
  - destruct (Z.max_spec j (foldr Z.max 0%Z l)) as [[_ E]|[_ E]]; rewrite E.
    + destruct Hin as [Hin|Hin]; [by left | right; by right].
    + right. by left.
Qed.

Lemma foldr_max_ext (l l' : list Z) :
  (∀ i, i ∈ l ↔ i ∈ l') → foldr Z.max 0%Z l = foldr Z.max 0%Z l'.
Proof.
  intros Hset.
  destruct (foldr_max_spec l) as (H0 & Hup & Hin).
  destruct (foldr_max_spec l') as (H0' & Hup' & Hin').
  simpl in *. apply Z.le_antisymm.
  - destruct Hin as [->|Hin]; [done | by apply Hup', Hset].
  - destruct Hin' as [->|Hin']; [done | by apply Hup, Hset].
Qed.

Lemma max_label_T labels : max_label (T labels) = max_label labels.
Proof.
  unfold max_label. apply foldr_max_ext. intros i.
  rewrite !elem_of_map. simpl. split.
  - intros (c & -> & Hc). apply elem_of_indices_rev3 in Hc. by exists (rev3 c).
  - intros (c & -> & Hc). exists (rev3 c). rewrite rev3_involutive. split; [done|].
    apply elem_of_indices_rev3. by rewrite rev3_involutive.
Qed.

(** The library function on the transposed array gives the boxes of the
    array itself with their axes reversed. *)
Lemma ndimage_find_objects_T labels :
  ndimage_find_objects (T labels) =
  map (λ slcs, match slcs with None => None | Some s => Some (rev3 s) end)
      (ndimage_find_objects labels).
Proof.
  unfold ndimage_find_objects. rewrite max_label_T, map_map.
  apply map_ext. intros l. apply region_of_T.
Qed.

End LocatorFacts.

(** C9. [find_objects] returns the same sequence of bounding boxes for a
    volume in C order and for the same volume in Fortran order, and it is
    the sequence of the boxes in the axis order of the volume itself (the
    one the library function gives on the array as it is): the
    transposition on the path of the arrays that are not C contiguous does
    not show. *)
Theorem find_objects_layout_invisible (labels : Locator.Volume) :
  Locator.find_objects (Locator.with_layout false labels)
  = Locator.find_objects (Locator.with_layout true labels)
  ∧ ∀ c_order : bool,
      Locator.find_objects (Locator.with_layout c_order labels)
      = Locator.ndimage_find_objects labels.
Proof.
  assert (∀ c_order : bool,
            Locator.find_objects (Locator.with_layout c_order labels)
            = Locator.ndimage_find_objects labels) as Hall.
  { intros [|]; unfold Locator.find_objects; simpl; [done|].
    rewrite ndimage_find_objects_T, map_map.
    unfold Locator.ndimage_find_objects. rewrite !map_map. simpl.
    apply map_ext. intros l.
    unfold Locator.region_of. simpl.
    destruct (foldl _ None _) as [s|]; [by rewrite rev3_involutive | done]. }
  split; [by rewrite !Hall | done].
Qed.

(** ** The sampling loops *)

Section AnnotateFacts.
Import Locator Skel Crop Annotate.
Context {P Aniso V A : Type}.
Context `{!FloatRows V, !AreaValue A, !Collaborators P Aniso V A}.
Implicit Types (opts : Options (Aniso := Aniso)) (st : Sampling (V := V) (A := A)).
Implicit Types (mapping : gmap coord nat) (binimg : Mask) (normals : list V).

(** *** The coordinate to index map *)

Lemma build_mapping_snoc (vs : list coord) (v : coord) :
  build_mapping (vs ++ [v]) = <[v := length vs]> (build_mapping vs).
Proof.
  unfold build_mapping, enumerate. rewrite imap_app, foldl_app. simpl.
  by rewrite Nat.add_0_r.
Qed.

(** The map sends a coordinate to the last vertex that has it. *)
Lemma build_mapping_lookup (vs : list coord) (c : coord) (i : nat) :
  build_mapping vs !! c = Some i ↔
  vs !! i = Some c ∧ ∀ j, (i < j)%nat → vs !! j ≠ Some c.
Proof.
  revert i. induction vs as [|v vs IH] using rev_ind; intros i.
  { unfold build_mapping. simpl. rewrite lookup_empty. split; [done|].
    intros [Hi _]. by rewrite lookup_nil in Hi. }
  rewrite build_mapping_snoc. destruct (decide (v = c)) as [->|Hvc].
  - rewrite lookup_insert_eq. split.
    + intros [= <-]. split.
      * by rewrite list_lookup_middle.
      * intros j Hj. rewrite lookup_ge_None_2; [done|].
        rewrite length_app. simpl. lia.
    + intros [Hi Hlast]. f_equal.
      pose proof (lookup_lt_Some _ _ _ Hi) as Hlt.
      rewrite length_app in Hlt. simpl in Hlt.
      destruct (decide (i = length vs)) as [->|Hne]; [done|].
      exfalso. apply (Hlast (length vs)); [lia|].
      by rewrite list_lookup_middle.
  - rewrite lookup_insert_ne by done. rewrite IH. split.
    + intros [Hi Hlast]. split.
      * rewrite lookup_app_l; [done | by eapply lookup_lt_Some].
      * intros j Hj Hc. destruct (decide (j < length vs)%nat) as [Hlt|Hge].
        -- rewrite lookup_app_l in Hc by done. by eapply Hlast.
        -- apply lookup_lt_Some in Hc as Hlt. rewrite length_app in Hlt. simpl in Hlt.
           assert (j = length vs) as -> by lia.
           rewrite list_lookup_middle in Hc by done. by inversion Hc.
    + intros [Hi Hlast].
      assert (i < length vs)%nat as Hlt.
      { apply lookup_lt_Some in Hi as Hlt. rewrite length_app in Hlt. simpl in Hlt.
        destruct (decide (i = length vs)) as [->|Hne]; [|lia].
        rewrite list_lookup_middle in Hi by done. by inversion Hi. }
      rewrite lookup_app_l in Hi by done. split; [done|].
      intros j Hj Hc. apply (Hlast j Hj).
      rewrite lookup_app_l; [done | by eapply lookup_lt_Some].
Qed.

Lemma build_mapping_total (vs : list coord) (c : coord) :
  c ∈ vs → ∃ i, build_mapping vs !! c = Some i.
Proof.
  induction vs as [|v vs IH] using rev_ind; intros Hc.
  { by apply elem_of_nil in Hc. }
  rewrite build_mapping_snoc. destruct (decide (v = c)) as [->|Hvc].
  - exists (length vs). by rewrite lookup_insert_eq.
  - rewrite lookup_insert_ne by done. apply IH.
    apply elem_of_app in Hc as [Hc|Hc]; [done|].
    apply list_elem_of_singleton in Hc. by subst.
Qed.

(** *** One visit of a vertex *)

Lemma wants_sample_true (repair : bool) st (idx : nat) :
  wants_sample repair st idx = Return true →
  ∃ a, areas st !! idx = Some a ∧
       (is_zero a = true ∨
        (repair = true ∧ ∃ c, contacts st !! idx = Some c ∧ (0 < c)%Z)).
Proof.
  unfold wants_sample. rewrite !index_of_nat.
  destruct (areas st !! idx) as [a|]; [|done]. simpl.
  intros Hw. exists a. split; [done|].
  destruct (is_zero a); [by left|]. right.
  destruct repair; [|done]. split; [done|].
  destruct (contacts st !! idx) as [c|]; [|done]. simpl in Hw.
  exists c. split; [done|]. inversion Hw as [Hc]. by apply Z.ltb_lt.
Qed.

Lemma sample_stored opts binimg (vert : coord) (normal : V) (idx : nat) st :
  (idx < length (areas st))%nat →
  (sample opts binimg vert normal idx st).1 = stored opts binimg vert normal idx st.
Proof.
  intros Hlt. unfold sample, stored.
  destruct (xs3d binimg vert normal (anisotropy opts)) as [area contact]. simpl.
  destruct (decide (idx < length (areas st))%nat); [|lia].
  destruct (decide (idx < length (contacts st))%nat); simpl; [done|].
  by rewrite (list_insert_ge (contacts st)) by lia.
Qed.

(** A visit either leaves the state as it is, or it is a call of the
    sampling primitive for the index that the map gives for the vertex, and
    this only where [areas[idx] == 0 or (repair_contacts and
    contacts[idx] > 0)] holds. *)
Lemma visit_cases opts binimg mapping normals (i : nat) (vert : coord) st :
  (visit opts binimg mapping normals (i, vert) st).1 = st ∨
  ∃ idx normal,
    outside vert (mshape binimg) = false ∧
    mapping !! vert = Some idx ∧
    index normals (Z.of_nat i) = Return normal ∧
    wants_sample (repair_contacts opts) st idx = Return true ∧
    (visit opts binimg mapping normals (i, vert) st).1
      = stored opts binimg vert normal idx st.
Proof.
  unfold visit, getitem.
  destruct (outside vert (mshape binimg)) eqn:Hout; [by left|].
  destruct (mapping !! vert) as [idx|] eqn:Hidx; [|by left].
  destruct (index normals (Z.of_nat i)) as [e|normal] eqn:Hn; [by left|].
  destruct (wants_sample (repair_contacts opts) st idx) as [e|[|]] eqn:Hw;
    [by left | | by left].
  right. exists idx, normal. repeat split; try done.
  apply sample_stored.
  apply wants_sample_true in Hw as (a & Ha & _). by eapply lookup_lt_Some.
Qed.

(** *** Invariants of the loops *)

Lemma trace_path_invariant opts binimg (origin : coord) mapping
    (I : Sampling (V := V) (A := A) → Prop) (path : list P) st :
  (∀ normals iv s, I s → I (visit opts binimg mapping normals iv s).1) →
  I st → I (trace_path opts binimg origin mapping path st).1.
Proof.
  intros Hvisit Hst. unfold trace_path.
  destruct (path_normals opts _) as [e|normals]; [done|].
  apply for_each_invariant; [|done]. intros iv s _. apply Hvisit.
Qed.

Lemma sampling_invariant opts binimg (origin : coord) mapping
    (I : Sampling (V := V) (A := A) → Prop) (paths : list (list P)) st :
  (∀ normals iv s, I s → I (visit opts binimg mapping normals iv s).1) →
  I st → I (for_each (trace_path opts binimg origin mapping) paths st).1.
Proof.
  intros Hvisit Hst. apply for_each_invariant; [|done].
  intros path s _. by apply trace_path_invariant.
Qed.

(** A visit writes at most the entry that the map gives for the vertex, and
    only where the test of the source asks for a sample. *)
Lemma visit_frame opts binimg mapping normals (iv : nat * coord) st (k : nat) :
  mapping !! iv.2 ≠ Some k ∨ wants_sample (repair_contacts opts) st k ≠ Return true →
  areas (visit opts binimg mapping normals iv st).1 !! k = areas st !! k ∧
  contacts (visit opts binimg mapping normals iv st).1 !! k = contacts st !! k.
Proof.
  destruct iv as [i vert]. intros Hk. simpl in Hk.
  destruct (visit_cases opts binimg mapping normals i vert st)
    as [->|(idx & normal & _ & Hidx & _ & Hw & ->)]; [done|].
  assert (idx ≠ k) as Hne by (intros ->; by destruct Hk).
  unfold stored. simpl. by rewrite !list_lookup_insert_ne.
Qed.

Lemma visit_lengths opts binimg mapping normals (iv : nat * coord) st :
  length (areas (visit opts binimg mapping normals iv st).1) = length (areas st) ∧
  length (contacts (visit opts binimg mapping normals iv st).1) = length (contacts st).
Proof.
  destruct iv as [i vert].
  destruct (visit_cases opts binimg mapping normals i vert st)
    as [->|(idx & normal & _ & _ & _ & _ & ->)]; [done|].
  unfold stored. simpl. by rewrite !length_insert.
Qed.

Lemma sampling_lengths opts binimg (origin : coord) mapping (paths : list (list P)) st :
  let st' := (for_each (trace_path opts binimg origin mapping) paths st).1 in
  length (areas st') = length (areas st) ∧ length (contacts st') = length (contacts st).
Proof.
  apply (sampling_invariant opts binimg origin mapping
    (λ s, length (areas s) = length (areas st) ∧ length (contacts s) = length (contacts st)));
    [|done].
  intros normals iv s [Ha Hc].
  destruct (visit_lengths opts binimg mapping normals iv s) as [-> ->]. done.
Qed.

(** Entries at indices that are not in the range of the map are never
    written. *)
Lemma sampling_frame_unmapped opts binimg (origin : coord) mapping
    (paths : list (list P)) st (k : nat) :
  (∀ c, mapping !! c ≠ Some k) →
  let st' := (for_each (trace_path opts binimg origin mapping) paths st).1 in
  areas st' !! k = areas st !! k ∧ contacts st' !! k = contacts st !! k.
Proof.
  intros Hk.
  apply (sampling_invariant opts binimg origin mapping
    (λ s, areas s !! k = areas st !! k ∧ contacts s !! k = contacts st !! k)); [|done].
  intros normals iv s [Ha Hc].
  destruct (visit_frame opts binimg mapping normals iv s k) as [-> ->]; [|done].
  left. apply Hk.
Qed.

(** Entries for which the test of the source is false at the start stay as
    they are: an entry with a non-zero area, and in repair mode with no
    contact, is not sampled again. *)
Lemma sampling_frame_measured opts binimg (origin : coord) mapping
    (paths : list (list P)) st (k : nat) (a : A) :
  areas st !! k = Some a → is_zero a = false →
  (repair_contacts opts = true → ∃ c, contacts st !! k = Some c ∧ (c ≤ 0)%Z) →
  let st' := (for_each (trace_path opts binimg origin mapping) paths st).1 in
  areas st' !! k = areas st !! k ∧ contacts st' !! k = contacts st !! k.
Proof.
  intros Ha Hnz Hc.
  apply (sampling_invariant opts binimg origin mapping
    (λ s, areas s !! k = areas st !! k ∧ contacts s !! k = contacts st !! k)); [|done].
  intros normals iv s [Has Hcs].
  destruct (visit_frame opts binimg mapping normals iv s k) as [-> ->]; [|done].
  right. intros Hw. apply wants_sample_true in Hw as (a' & Ha' & Hcase).
  rewrite Has, Ha in Ha'. inversion Ha'; subst a'.
  destruct Hcase as [Hz|(Hrep & c & Hc' & Hpos)]; [congruence|].
  destruct (Hc Hrep) as (c0 & Hc0 & Hle).
  rewrite Hcs, Hc0 in Hc'. inversion Hc'; subst. lia.
Qed.

(** *** Normal mode: one call for each coordinate *)

Lemma build_mapping_inj (vs : list coord) (c c' : coord) (k : nat) :
  build_mapping vs !! c = Some k → build_mapping vs !! c' = Some k → c = c'.
Proof.
  intros Hc Hc'. apply build_mapping_lookup in Hc as [Hc _].
  apply build_mapping_lookup in Hc' as [Hc' _]. congruence.
Qed.

Lemma visit_once_each opts binimg mapping normals (iv : nat * coord) st :
  repair_contacts opts = false →
  (∀ c c' k, mapping !! c = Some k → mapping !! c' = Some k → c = c') →
  length (contacts st) = length (areas st) →
  (Forall (nonzero_sample opts binimg) (calls st) → once_each opts binimg mapping st) →
  let st' := (visit opts binimg mapping normals iv st).1 in
  Forall (nonzero_sample opts binimg) (calls st') → once_each opts binimg mapping st'.
Proof.
  intros Hnormal Hinj Hlen Hinv. destruct iv as [i vert].
  destruct (visit_cases opts binimg mapping normals i vert st)
    as [->|(idx & normal & _ & Hidx & _ & Hw & ->)]; [done|].
  cbv zeta. unfold stored at 1. simpl. intros Hnz.
  apply Forall_app in Hnz as [Hnz Hnew].
  apply Forall_singleton in Hnew. unfold nonzero_sample in Hnew. simpl in Hnew.
  destruct (Hinv Hnz) as [Hnodup Hstored].
  apply wants_sample_true in Hw as (a & Ha & Hcase).
  destruct Hcase as [Hzero|[Hrep _]]; [|congruence].
  assert (∀ n, (vert, n) ∉ calls st) as Hfresh.
  { intros n Hin. destruct (Hstored vert n Hin) as (idx' & Hidx' & Ha' & _).
    rewrite Hidx in Hidx'. inversion Hidx'; subst idx'.
    rewrite Ha in Ha'. inversion Ha'; subst a.
    apply (proj1 (Forall_forall _ _) Hnz) in Hin.
    unfold nonzero_sample in Hin. simpl in Hin. congruence. }
  assert (idx < length (areas st))%nat as Hlt by (by eapply lookup_lt_Some).
  split.
  - unfold stored. simpl. rewrite map_app. simpl.
    apply NoDup_app. split; [done|]. split; [|apply NoDup_singleton].
    intros c Hc Hc'. apply list_elem_of_singleton in Hc'. subst c.
    apply elem_of_map in Hc as ([c n] & Hfst & Hin). simpl in Hfst. subst c.
    by apply (Hfresh n).
  - intros c n Hin. unfold stored in *. simpl in *.
    apply elem_of_app in Hin as [Hin|Hin].
    + destruct (Hstored c n Hin) as (idx' & Hidx' & Ha' & Hc').
      exists idx'. split; [done|].
      assert (idx ≠ idx') as Hne.
      { intros <-. pose proof (Hinj _ _ _ Hidx Hidx'). subst c. by apply (Hfresh n). }
      by rewrite !list_lookup_insert_ne.
    + apply list_elem_of_singleton in Hin. inversion Hin; subst c n.
      exists idx. split; [done|].
      rewrite !list_lookup_insert_eq by lia. done.
Qed.

Lemma sampling_once_each opts binimg (origin : coord) mapping
    (paths : list (list P)) st :
  repair_contacts opts = false →
  (∀ c c' k, mapping !! c = Some k → mapping !! c' = Some k → c = c') →
  length (contacts st) = length (areas st) →
  calls st = [] →
  let st' := (for_each (trace_path opts binimg origin mapping) paths st).1 in
  Forall (nonzero_sample opts binimg) (calls st') → once_each opts binimg mapping st'.
Proof.
  intros Hnormal Hinj Hlen Hcalls.
  apply (sampling_invariant opts binimg origin mapping
    (λ s, length (contacts s) = length (areas s) ∧
          (Forall (nonzero_sample opts binimg) (calls s) → once_each opts binimg mapping s))).
  - intros normals iv s [Hl Hinv]. split.
    + destruct (visit_lengths opts binimg mapping normals iv s) as [-> ->]. done.
    + by apply visit_once_each.
  - split; [done|]. intros _. split.
    + rewrite Hcalls. apply NoDup_nil_2.
    + intros c n Hin. rewrite Hcalls in Hin. by apply elem_of_nil in Hin.
Qed.

(** *** One skeleton in normal mode *)

Lemma map_fmap {X Y} (f : X → Y) (l : list X) : map f l = f <$> l.
Proof. reflexivity. Qed.

Lemma sub3_inj (a b o : coord) : sub3 a o = sub3 b o → a = b.
Proof.
  destruct a as [[ax ay] az], b as [[bx by_] bz], o as [[ox oy] oz]. simpl.
  intros [= Hx Hy Hz]. f_equal; [f_equal|]; lia.
Qed.

Lemma to_crop_lookup opts (origin : coord) (path : list P) (k : nat) :
  to_crop opts origin path !! k
  = (λ p, sub3 (rasterize (anisotropy opts) p) origin) <$> path !! k.
Proof. unfold to_crop. by rewrite map_fmap, list_lookup_fmap. Qed.

Lemma length_to_crop opts (origin : coord) (path : list P) :
  length (to_crop opts origin path) = length path.
Proof. unfold to_crop. apply length_map. Qed.

Lemma measure_normal opts (all_labels : Volume) (label : Z) (roi : Bbox)
    (skel : Skeleton P A) :
  repair_contacts opts = false →
  let n := length (vertices skel) in
  measure opts all_labels label roi skel =
  match sampling_run opts all_labels label roi skel
          (replicate n area_zero) (replicate n 0%Z) with
  | (st, Some e) => {| after := skel; sampled := calls st; raised := Some e |}
  | (st, None) =>
      {| after := set_arrays skel (with_prop (extra_attributes skel)) st;
         sampled := calls st; raised := None |}
  end.
Proof.
  intros Hnormal. unfold measure, initial_arrays, sampling_run. rewrite Hnormal.
  rewrite length_to_crop. done.
Qed.

Lemma measure_repair opts (all_labels : Volume) (label : Z) (roi : Bbox)
    (skel : Skeleton P A) (areas0 : list A) (contacts0 : list Z) :
  repair_contacts opts = true →
  Skel.cross_sectional_area skel = Some areas0 →
  cross_sectional_area_contacts skel = Some contacts0 →
  measure opts all_labels label roi skel =
  match sampling_run opts all_labels label roi skel areas0 contacts0 with
  | (st, Some e) =>
      {| after := set_arrays skel (extra_attributes skel) st;
         sampled := calls st; raised := Some e |}
  | (st, None) =>
      {| after := set_arrays skel (with_prop (extra_attributes skel)) st;
         sampled := calls st; raised := None |}
  end.
Proof.
  intros Hrepair Ha Hc. unfold measure, initial_arrays, sampling_run.
  rewrite Hrepair, Ha, Hc. done.
Qed.

Lemma annotate_skeleton_resolved opts (all_labels : Volume) (remapping : gmap Z Z)
    (all_slices : list (option slices)) (skel : Skeleton P A) (label : Z) (roi : Bbox) :
  resolve_roi all_labels remapping all_slices skel = Return (Some (label, roi)) →
  annotate_skeleton opts all_labels remapping all_slices skel
  = measure opts all_labels label roi skel.
Proof. intros Hroi. unfold annotate_skeleton. by rewrite Hroi. Qed.

Section SamplingRun.
Context opts (all_labels : Volume) (label : Z) (roi : Bbox) (skel : Skeleton P A).
Context (areas0 : list A) (contacts0 : list Z).

Local Abbreviation run := (sampling_run opts all_labels label roi skel areas0 contacts0).
Local Abbreviation all_verts := (to_crop opts (minpt (grown roi)) (vertices skel)).

Lemma sampling_run_lengths :
  length (areas run.1) = length areas0 ∧ length (contacts run.1) = length contacts0.
Proof.
  exact (sampling_lengths opts _ _ _ _
           {| areas := areas0; contacts := contacts0; calls := [] |}).
Qed.

Lemma sampling_run_unmapped (k : nat) :
  (∀ c, build_mapping all_verts !! c ≠ Some k) →
  areas run.1 !! k = areas0 !! k ∧ contacts run.1 !! k = contacts0 !! k.
Proof.
  exact (sampling_frame_unmapped opts _ _ _ _
           {| areas := areas0; contacts := contacts0; calls := [] |} k).
Qed.

Lemma sampling_run_measured (k : nat) (a : A) :
  areas0 !! k = Some a → is_zero a = false →
  (repair_contacts opts = true → ∃ c, contacts0 !! k = Some c ∧ (c ≤ 0)%Z) →
  areas run.1 !! k = areas0 !! k ∧ contacts run.1 !! k = contacts0 !! k.
Proof.
  exact (sampling_frame_measured opts _ _ _ _
           {| areas := areas0; contacts := contacts0; calls := [] |} k a).
Qed.

Lemma sampling_run_once_each :
  repair_contacts opts = false →
  length contacts0 = length areas0 →
  Forall (nonzero_sample opts (binary_image opts all_labels label (grown roi)))
         (calls run.1) →
  once_each opts (binary_image opts all_labels label (grown roi))
            (build_mapping all_verts) run.1.
Proof.
  intros Hnormal Hlen.
  exact (sampling_once_each opts _ _ _ _
           {| areas := areas0; contacts := contacts0; calls := [] |}
           Hnormal (build_mapping_inj _) Hlen eq_refl).
Qed.

End SamplingRun.

(** C3 (as amended). Within one normal-mode call, for a skeleton that
    reaches the sampling: every visit of a coordinate goes through the one
    index that the map has for it, which is the last vertex with that
    coordinate. Provided that no call of the sampling primitive in the run
    returned a zero area, the primitive is called at most once for each
    coordinate, and what it returned is stored at that last vertex. Every
    vertex that shares its coordinate with a later vertex is never written:
    after the call its area is the zero of the new array and its contacts
    entry is 0. *)
Theorem colocated_vertices_one_representative opts (all_labels : Volume)
    (remapping : gmap Z Z) (all_slices : list (option slices))
    (skel : Skeleton P A) (label : Z) (roi : Bbox) :
  repair_contacts opts = false →
  resolve_roi all_labels remapping all_slices skel = Return (Some (label, roi)) →
  let o := annotate_skeleton opts all_labels remapping all_slices skel in
  let binimg := binary_image opts all_labels label (grown roi) in
  let an := anisotropy opts in
  (Forall (nonzero_sample opts binimg) (sampled o) → NoDup (map fst (sampled o))) ∧
  (raised o = None →
   ∃ areas contacts,
     Skel.cross_sectional_area (after o) = Some areas ∧
     cross_sectional_area_contacts (after o) = Some contacts ∧
     length areas = length (vertices skel) ∧
     length contacts = length (vertices skel) ∧
     (Forall (nonzero_sample opts binimg) (sampled o) →
      ∀ c n, (c, n) ∈ sampled o →
        ∃ k p, vertices skel !! k = Some p ∧
          sub3 (rasterize an p) (minpt (grown roi)) = c ∧
          (∀ j q, (k < j)%nat → vertices skel !! j = Some q →
                  rasterize an q ≠ rasterize an p) ∧
          areas !! k = Some (xs3d binimg c n an).1 ∧
          contacts !! k = Some (xs3d binimg c n an).2) ∧
     (∀ i j p q, (i < j)%nat →
        vertices skel !! i = Some p → vertices skel !! j = Some q →
        rasterize an p = rasterize an q →
        areas !! i = Some area_zero ∧ contacts !! i = Some 0%Z)).
Proof.
  intros Hnormal Hroi. cbv zeta.
  rewrite (annotate_skeleton_resolved _ _ _ _ _ _ _ Hroi), measure_normal by done.
  set (n := length (vertices skel)).
  pose proof (sampling_run_once_each opts all_labels label roi skel
    (replicate n area_zero) (replicate n 0%Z) Hnormal) as Honce.
  rewrite !length_replicate in Honce. specialize (Honce eq_refl).
  pose proof (sampling_run_lengths opts all_labels label roi skel
    (replicate n area_zero) (replicate n 0%Z)) as Hlen.
  rewrite !length_replicate in Hlen.
  pose proof (sampling_run_unmapped opts all_labels label roi skel
    (replicate n area_zero) (replicate n 0%Z)) as Hframe.
  destruct (sampling_run opts all_labels label roi skel _ _) as [st [e|]]; simpl in *.
  { split; [|done]. intros Hnz. by destruct (Honce Hnz). }
  split; [intros Hnz; by destruct (Honce Hnz)|]. intros _.
  destruct Hlen as [Hla Hlc].
  exists (areas st), (contacts st). do 4 (split; [done|]). split.
  - intros Hnz c v Hin. destruct (Honce Hnz) as [_ Hstored].
    destruct (Hstored c v Hin) as (k & Hk & Ha & Hc).
    apply build_mapping_lookup in Hk as [Hk Hlast].
    rewrite to_crop_lookup in Hk.
    destruct (vertices skel !! k) as [p|] eqn:Hp; [|done].
    simpl in Hk. inversion Hk as [Hc0].
    exists k, p. split; [done|]. split; [done|]. split; [|by rewrite Hc0].
    intros j q Hj Hq Heq. apply (Hlast j Hj).
    rewrite to_crop_lookup, Hq. simpl. by rewrite Heq.
  - intros i j p q Hij Hp Hq Heq.
    destruct (Hframe i) as [Ha Hc].
    { intros c Hc. apply build_mapping_lookup in Hc as [Hc Hlast].
      apply (Hlast j Hij). rewrite to_crop_lookup, Hq. simpl.
      rewrite to_crop_lookup, Hp in Hc. simpl in Hc. by rewrite <-Heq. }
    assert (i < n)%nat as Hin by (by eapply lookup_lt_Some).
    rewrite Ha, Hc. by rewrite !lookup_replicate_2.
Qed.

(** *** Paths and their normals *)

Lemma length_differences (path : list coord) :
  length (zip_with sub3 (slice_from 1 path) (slice_upto_neg 1 path)) = (length path - 1)%nat.
Proof.
  unfold slice_from, slice_upto_neg.
  rewrite length_zip_with, length_drop, length_take.
  change (Z.to_nat 1) with 1%nat. lia.
Qed.

(** A path of fewer than two vertices has no direction vector, and
    [normals[-1]] raises. *)
Lemma path_normals_short opts (path : list coord) :
  (length path < 2)%nat →
  zip_with sub3 (slice_from 1 path) (slice_upto_neg 1 path) = [] ∧
  path_normals opts path = Raise IndexError.
Proof.
  intros Hlen.
  assert (zip_with sub3 (slice_from 1 path) (slice_upto_neg 1 path) = []) as Hnil.
  { apply length_zero_iff_nil. rewrite length_differences. lia. }
  split; [done|]. unfold path_normals. by rewrite Hnil.
Qed.

(** With a window that is not positive, the rolling average raises on the
    normals of a path of two vertices or more. *)
Lemma path_normals_nonpositive_window opts (path : list coord) :
  (smoothing_window opts ≤ 0)%Z → (2 ≤ length path)%nat →
  path_normals opts path = Raise ValueError.
Proof.
  intros Hw Hlen. unfold path_normals.
  destruct (index_last_is_Return
    (map astype_float32 (zip_with sub3 (slice_from 1 path) (slice_upto_neg 1 path))))
    as [last ->].
  { intros Hnil. apply (f_equal length) in Hnil.
    rewrite length_map, length_differences in Hnil. simpl in Hnil. lia. }
  simpl. by rewrite moving_average_nonpositive.
Qed.

Lemma trace_path_raises opts binimg (origin : coord) mapping (path : list P) st (e : exn) :
  path_normals opts (to_crop opts origin path) = Raise e →
  trace_path opts binimg origin mapping path st = (st, Some e).
Proof. intros Hn. unfold trace_path. by rewrite Hn. Qed.

(** A loop that meets a body that raises in every state ends by an
    exception. *)
Lemma for_each_raises {X S} (body : X → S → S * option exn) (l : list X) (x : X) (st : S) :
  x ∈ l → (∀ s, (body x s).2 ≠ None) → (for_each body l st).2 ≠ None.
Proof.
  intros Hx Hbody. revert st. induction l as [|y l IH]; intros st.
  { by apply elem_of_nil in Hx. }
  simpl. apply elem_of_cons in Hx as [<-|Hx].
  - pose proof (Hbody st) as Hst. by destruct (body x st) as [st' [e|]].
  - destruct (body y st) as [st' [e|]]; [done | by apply IH].
Qed.

Lemma set_arrays_same (skel : Skeleton P A) (areas0 : list A) (contacts0 : list Z)
    (called : list (coord * V)) :
  Skel.cross_sectional_area skel = Some areas0 →
  cross_sectional_area_contacts skel = Some contacts0 →
  set_arrays skel (extra_attributes skel)
    {| areas := areas0; contacts := contacts0; calls := called |} = skel.
Proof. destruct skel. simpl. by intros -> ->. Qed.

(** The outcome of [measure] when the first path raises in [path_normals]:
    nothing was sampled and the skeleton is as it was. *)
Lemma measure_first_path_raises opts (all_labels : Volume) (label : Z) (roi : Bbox)
    (skel : Skeleton P A) (path : list P) (rest : list (list P)) (e : exn) :
  (repair_contacts opts = true →
   is_Some (Skel.cross_sectional_area skel) ∧
   is_Some (cross_sectional_area_contacts skel)) →
  skeleton_paths (vertices skel) (edges skel) = path :: rest →
  path_normals opts (to_crop opts (minpt (grown roi)) path) = Raise e →
  measure opts all_labels label roi skel = fails skel e.
Proof.
  intros Harrays Hpaths Hraise.
  destruct (repair_contacts opts) eqn:Hmode.
  - destruct (Harrays eq_refl) as [[areas0 Ha] [contacts0 Hc]].
    rewrite (measure_repair _ _ _ _ _ areas0 contacts0) by done.
    unfold sampling_run. rewrite Hpaths. simpl.
    rewrite (trace_path_raises _ _ _ _ _ _ e) by done.
    unfold fails. f_equal. by apply set_arrays_same.
  - rewrite measure_normal by done.
    unfold sampling_run. rewrite Hpaths. simpl.
    by rewrite (trace_path_raises _ _ _ _ _ _ e) by done.
Qed.

Lemma measure_short_path_raises opts (all_labels : Volume) (label : Z) (roi : Bbox)
    (skel : Skeleton P A) (path : list P) :
  path ∈ skeleton_paths (vertices skel) (edges skel) → (length path < 2)%nat →
  raised (measure opts all_labels label roi skel) ≠ None.
Proof.
  intros Hin Hlen. unfold measure.
  destruct (initial_arrays opts skel _) as [e|[areas0 contacts0]]; [done|].
  match goal with |- context [for_each ?body ?l ?st] =>
    pose proof (for_each_raises body l path st Hin) as Hraise end.
  destruct (for_each _ _ _) as [st [e|]]; [done|].
  exfalso. apply Hraise; [|done]. intros s.
  rewrite (trace_path_raises _ _ _ _ _ _ IndexError); [done|].
  apply path_normals_short. by rewrite length_to_crop.
Qed.

(** C5 (as amended). For a skeleton that reaches the sampling, a path of
    the decomposition with fewer than 2 vertices yields no direction
    vectors, and it is not skipped: [normals[-1]] on the empty array of
    directions raises an index error in whatever state the loop is, so the
    call ends by an exception; when that path is the first one, the
    exception is the index error, nothing has been sampled, and the
    skeleton is as it was. *)
Theorem path_with_fewer_than_two_vertices opts (all_labels : Volume)
    (remapping : gmap Z Z) (all_slices : list (option slices))
    (skel : Skeleton P A) (label : Z) (roi : Bbox) (path : list P) :
  resolve_roi all_labels remapping all_slices skel = Return (Some (label, roi)) →
  path ∈ skeleton_paths (vertices skel) (edges skel) →
  (length path < 2)%nat →
  (∀ origin : coord,
     let p := to_crop opts origin path in
     zip_with sub3 (slice_from 1 p) (slice_upto_neg 1 p) = []) ∧
  (∀ binimg (origin : coord) mapping st,
     trace_path opts binimg origin mapping path st = (st, Some IndexError)) ∧
  raised (annotate_skeleton opts all_labels remapping all_slices skel) ≠ None ∧
  (∀ rest,
     skeleton_paths (vertices skel) (edges skel) = path :: rest →
     (repair_contacts opts = true →
      is_Some (Skel.cross_sectional_area skel) ∧
      is_Some (cross_sectional_area_contacts skel)) →
     annotate_skeleton opts all_labels remapping all_slices skel
     = fails skel IndexError).
Proof.
  intros Hroi Hin Hlen.
  assert (∀ origin : coord,
            path_normals opts (to_crop opts origin path) = Raise IndexError) as Hraise.
  { intros origin. apply path_normals_short. by rewrite length_to_crop. }
  rewrite (annotate_skeleton_resolved _ _ _ _ _ _ _ Hroi).
  split; [|split; [|split]].
  - intros origin. apply (path_normals_short opts). by rewrite length_to_crop.
  - intros binimg origin mapping st. by apply trace_path_raises.
  - by eapply measure_short_path_raises.
  - intros rest Hpaths Harrays.
    by apply (measure_first_path_raises _ _ _ _ _ path rest).
Qed.

(** Skeletons that are skipped, or that have no path in normal mode, go
    through the loop over the skeletons without an exception. *)
Lemma annotate_all_no_smoothing opts (all_labels : Volume) (remapping : gmap Z Z)
    (all_slices : list (option slices)) (skels : list (Skeleton P A)) :
  (∀ skel, skel ∈ skels →
     resolve_roi all_labels remapping all_slices skel = Return None ∨
     (repair_contacts opts = false ∧
      (∃ label roi, resolve_roi all_labels remapping all_slices skel
                    = Return (Some (label, roi))) ∧
      skeleton_paths (vertices skel) (edges skel) = [])) →
  raised (annotate_all opts all_labels remapping all_slices skels) = None.
Proof.
  induction skels as [|skel skels IH]; intros Hall; simpl; [done|].
  assert (raised (annotate_skeleton opts all_labels remapping all_slices skel) = None) as Hnone.
  { destruct (Hall skel ltac:(left)) as [Hskip|(Hnormal & (label & roi & Hroi) & Hpaths)].
    - unfold annotate_skeleton. by rewrite Hskip.
    - rewrite (annotate_skeleton_resolved _ _ _ _ _ _ _ Hroi), measure_normal by done.
      unfold sampling_run. by rewrite Hpaths. }
  rewrite Hnone. simpl. apply IH. intros s Hs. apply Hall. by right.
Qed.

(** C7 (as amended). With a smoothing window that is not positive, the
    rolling average raises a value error on every input. The orchestrator
    calls it only in the loop over the paths of a skeleton that reached the
    sampling: at the first path, when it has 2 vertices or more, the call
    ends by the value error, with nothing sampled for that skeleton and the
    skeleton as it was. Skeletons that come earlier in the call have been
    handled by then, and a call in which every skeleton is skipped or, in
    normal mode, has no path, returns without an exception. *)
Theorem nonpositive_window_raises_in_path_loop opts :
  (smoothing_window opts ≤ 0)%Z →
  (∀ a : list V, Smoother.moving_average a (smoothing_window opts) = Raise ValueError) ∧
  (∀ (all_labels : Volume) (remapping : gmap Z Z) (all_slices : list (option slices))
     (skel : Skeleton P A) (label : Z) (roi : Bbox) (path : list P) rest,
     resolve_roi all_labels remapping all_slices skel = Return (Some (label, roi)) →
     (repair_contacts opts = true →
      is_Some (Skel.cross_sectional_area skel) ∧
      is_Some (cross_sectional_area_contacts skel)) →
     skeleton_paths (vertices skel) (edges skel) = path :: rest →
     (2 ≤ length path)%nat →
     annotate_skeleton opts all_labels remapping all_slices skel = fails skel ValueError) ∧
  (∀ (all_labels : Volume) (remapping : gmap Z Z) (all_slices : list (option slices))
     (skels : list (Skeleton P A)),
     (∀ skel, skel ∈ skels →
        resolve_roi all_labels remapping all_slices skel = Return None ∨
        (repair_contacts opts = false ∧
         (∃ label roi, resolve_roi all_labels remapping all_slices skel
                       = Return (Some (label, roi))) ∧
         skeleton_paths (vertices skel) (edges skel) = [])) →
     raised (annotate_all opts all_labels remapping all_slices skels) = None).
Proof.
  intros Hw. split; [|split].
  - intros a. by apply moving_average_nonpositive.
  - intros all_labels remapping all_slices skel label roi path rest Hroi Harrays Hpaths Hlen.
    rewrite (annotate_skeleton_resolved _ _ _ _ _ _ _ Hroi).
    apply (measure_first_path_raises _ _ _ _ _ path rest); [done | done |].
    apply path_normals_nonpositive_window; [done|]. by rewrite length_to_crop.
  - intros all_labels remapping all_slices skels. apply annotate_all_no_smoothing.
Qed.


(** *** The test on the crop *)

(** [outside] is true exactly when a coordinate is negative or greater
    than the extent of the crop on its axis; a coordinate equal to the
    extent passes. *)
Lemma outside_spec (vert shape : coord) :
  outside vert shape = true ↔
  (px vert < 0 ∨ py vert < 0 ∨ pz vert < 0 ∨
   px vert > px shape ∨ py vert > py shape ∨ pz vert > pz shape)%Z.
Proof.
  destruct vert as [[x y] z], shape as [[sx sy] sz].
  unfold outside, any_lt, px, py, pz. simpl.
  rewrite !orb_true_iff, !Z.ltb_lt. lia.
Qed.

(** *** Repair mode: what is not sampled again *)

(** X15. In repair mode an entry with a non-zero area and no contact is left as
    it is. (An entry with a zero area is sampled again whatever its
    contacts are.) *)
Lemma repair_keeps_measured_entries opts (all_labels : Volume)
    (remapping : gmap Z Z) (all_slices : list (option slices))
    (skel : Skeleton P A) (label : Z) (roi : Bbox)
    (areas0 : list A) (contacts0 : list Z) (k : nat) (a : A) (c : Z) :
  repair_contacts opts = true →
  resolve_roi all_labels remapping all_slices skel = Return (Some (label, roi)) →
  Skel.cross_sectional_area skel = Some areas0 →
  cross_sectional_area_contacts skel = Some contacts0 →
  areas0 !! k = Some a → is_zero a = false →
  contacts0 !! k = Some c → (c ≤ 0)%Z →
  let o := annotate_skeleton opts all_labels remapping all_slices skel in
  ∃ areas1 contacts1,
    Skel.cross_sectional_area (after o) = Some areas1 ∧
    cross_sectional_area_contacts (after o) = Some contacts1 ∧
    areas1 !! k = Some a ∧ contacts1 !! k = Some c.
Proof.
  intros Hrepair Hroi Ha0 Hc0 Ha Hnz Hc Hle. cbv zeta.
  rewrite (annotate_skeleton_resolved _ _ _ _ _ _ _ Hroi).
  rewrite (measure_repair _ _ _ _ _ areas0 contacts0) by done.
  destruct (sampling_run_measured opts all_labels label roi skel areas0 contacts0 k a
              Ha Hnz) as [Hka Hkc].
  { intros _. by exists c. }
  destruct (sampling_run _ _ _ _ _ _ _) as [st [e|]]; simpl in *;
    exists (areas st), (contacts st); by rewrite Hka, Hkc.
Qed.

(** *** Normal mode: a second call *)

Lemma needs_prop_snoc (attrs : list Attribute) : needs_prop (attrs ++ [prop]) = false.
Proof.
  unfold needs_prop. rewrite existsb_app. simpl.
  by rewrite orb_true_r.
Qed.

Lemma with_prop_idempotent (attrs : list Attribute) :
  with_prop (with_prop attrs) = with_prop attrs.
Proof.
  unfold with_prop at 2 3. destruct (needs_prop attrs) eqn:E.
  - unfold with_prop. by rewrite needs_prop_snoc.
  - unfold with_prop. by rewrite E.
Qed.

Lemma resolve_roi_id (all_labels : Volume) (remapping : gmap Z Z)
    (all_slices : list (option slices)) (s1 s2 : Skeleton P A) :
  id s1 = id s2 →
  resolve_roi all_labels remapping all_slices s1
  = resolve_roi all_labels remapping all_slices s2.
Proof. intros Hid. unfold resolve_roi. by rewrite Hid. Qed.

Lemma sampling_run_geometry opts (all_labels : Volume) (label : Z) (roi : Bbox)
    (s1 s2 : Skeleton P A) (areas0 : list A) (contacts0 : list Z) :
  vertices s1 = vertices s2 → edges s1 = edges s2 →
  sampling_run opts all_labels label roi s1 areas0 contacts0
  = sampling_run opts all_labels label roi s2 areas0 contacts0.
Proof. intros Hv He. unfold sampling_run. by rewrite Hv, He. Qed.

(** In normal mode the outcome for a skeleton does not read its two
    arrays: a skeleton that has been annotated is annotated again in the
    same way, by the same calls of the sampling primitive. *)
Lemma annotate_skeleton_again opts (all_labels : Volume) (remapping : gmap Z Z)
    (all_slices : list (option slices)) (skel : Skeleton P A) :
  repair_contacts opts = false →
  let o := annotate_skeleton opts all_labels remapping all_slices skel in
  raised o = None →
  annotate_skeleton opts all_labels remapping all_slices (after o) = o.
Proof.
  intros Hnormal. cbv zeta.
  destruct (resolve_roi all_labels remapping all_slices skel)
    as [e|[[label roi]|]] eqn:Hroi.
  - unfold annotate_skeleton at 1. by rewrite Hroi.
  - rewrite (annotate_skeleton_resolved _ _ _ _ _ _ _ Hroi), measure_normal by done.
    destruct (sampling_run _ _ _ _ _ _ _) as [st [e|]] eqn:Hrun; [done|].
    simpl. intros _.
    rewrite (annotate_skeleton_resolved _ _ _ _ _ label roi)
      by (by rewrite <-Hroi; apply resolve_roi_id).
    rewrite measure_normal by done. simpl.
    rewrite (sampling_run_geometry _ _ _ _ _ skel) by done.
    rewrite Hrun. unfold set_arrays. simpl. by rewrite with_prop_idempotent.
  - unfold annotate_skeleton. rewrite Hroi. simpl. by rewrite Hroi.
Qed.

Lemma annotate_all_again opts (all_labels : Volume) (remapping : gmap Z Z)
    (all_slices : list (option slices)) (skels : list (Skeleton P A)) :
  repair_contacts opts = false →
  let o := annotate_all opts all_labels remapping all_slices skels in
  raised o = None →
  annotate_all opts all_labels remapping all_slices (after o) = o.
Proof.
  intros Hnormal. cbv zeta. induction skels as [|skel skels IH]; simpl; [done|].
  destruct (raised (annotate_skeleton opts all_labels remapping all_slices skel)) eqn:Hr;
    simpl; [done|].
  intros Hrest. rewrite annotate_skeleton_again by done. rewrite Hr.
  by rewrite IH.
Qed.

Lemma length_annotate_all opts (all_labels : Volume) (remapping : gmap Z Z)
    (all_slices : list (option slices)) (skels : list (Skeleton P A)) :
  length (after (annotate_all opts all_labels remapping all_slices skels)) = length skels.
Proof.
  induction skels as [|skel skels IH]; simpl; [done|].
  destruct (raised (annotate_skeleton _ _ _ _ skel)); simpl; [done | by rewrite IH].
Qed.

Lemma iterator_restore (skeletons : Skeletons P A) (skels : list (Skeleton P A)) :
  length skels = length (iterator skeletons) →
  iterator (restore skeletons skels) = skels.
Proof.
  destruct skeletons as [d|l|s]; simpl; intros Hlen.
  - rewrite length_map in Hlen. rewrite !map_fmap.
    apply snd_zip. rewrite length_fmap. lia.
  - done.
  - destruct skels as [|s' [|]]; simpl in *; done.
Qed.

Lemma restore_restore (skeletons : Skeletons P A) (l l' : list (Skeleton P A)) :
  length l = length (iterator skeletons) →
  length l' = length (iterator skeletons) →
  restore (restore skeletons l) l' = restore skeletons l'.
Proof.
  destruct skeletons as [d|l0|s]; simpl; intros Hl Hl'.
  - rewrite length_map in Hl. f_equal. f_equal. rewrite !map_fmap.
    apply fst_zip. rewrite length_fmap. lia.
  - done.
  - destruct l' as [|s' [|]]; simpl in *; done.
Qed.

(** C2 (as amended). With [in_place] at its default, two calls in normal
    mode with the same arguments give the same skeletons, hence the same
    [area] and [contacts] arrays, as one call. The second call does not
    skip the vertices that the first one measured: it starts from new
    arrays of zeros and makes the same calls of the sampling primitive as
    the first. *)
Theorem normal_mode_second_call_repeats_first (all_labels : Volume)
    (skeletons : Skeletons P A) opts :
  repair_contacts opts = false →
  let once := cross_sectional_area all_labels skeletons opts in
  raised once = None →
  let twice := cross_sectional_area all_labels (after once) opts in
  after twice = after once ∧ sampled twice = sampled once ∧ raised twice = None.
Proof.
  intros Hnormal. cbv zeta. unfold cross_sectional_area.
  destruct (if dtype_bool all_labels then (all_labels, bool_remapping)
            else renumber all_labels) as [labels remapping].
  simpl. intros Hnone.
  rewrite iterator_restore by apply length_annotate_all.
  rewrite annotate_all_again by done.
  rewrite restore_restore by (by rewrite ?length_annotate_all).
  done.
Qed.

(** *** Labels that the volume does not have *)

Lemma renumber_mapping_absent (labels : Volume) (l : Z) :
  l ≠ 0%Z →
  (∀ c, c ∈ indices (shape labels) → voxel labels c ≠ l) →
  renumber_mapping labels !! l = None.
Proof.
  intros Hl Habsent. unfold renumber_mapping.
  assert (l ∉ map (voxel labels) (indices (shape labels))) as Hnotin.
  { intros Hin. apply elem_of_map in Hin as (c & -> & Hc). by apply (Habsent c). }
  assert (({[0%Z := 0%Z]} : gmap Z Z) !! l = None) as Hstart.
  { by rewrite lookup_singleton_ne. }
  revert Hnotin Hstart. generalize ({[0%Z := 0%Z]} : gmap Z Z).
  induction (map (voxel labels) (indices (shape labels))) as [|x xs IH];
    intros m Hnotin Hm; simpl; [done|].
  apply IH.
  - intros Hin. apply Hnotin. by right.
  - destruct (m !! x); [done|]. rewrite lookup_insert_ne; [done|].
    intros ->. apply Hnotin. by left.
Qed.

Lemma resolve_roi_unmapped (all_labels : Volume) (remapping : gmap Z Z)
    (all_slices : list (option slices)) (skel : Skeleton P A) :
  dtype_bool all_labels = false → id skel ≠ 0%Z → remapping !! id skel = None →
  resolve_roi all_labels remapping all_slices skel = Raise KeyError.
Proof.
  intros Hbool Hid Hnone. unfold resolve_roi. rewrite Hbool.
  destruct (Z.eqb_spec (id skel) 0) as [?|_]; [done|].
  unfold getitem. by rewrite Hnone.
Qed.

(** C4 (what the code does). For a volume that is not boolean and a
    skeleton whose label is not 0 and has no voxel in the volume, the
    lookup [remapping[label]] raises a key error: the call ends by this
    exception, instead of skipping the skeleton. The skeleton itself is
    left as it was. *)
Theorem absent_label_raises_key_error (all_labels : Volume) (skel : Skeleton P A) opts :
  dtype_bool all_labels = false →
  id skel ≠ 0%Z →
  (∀ c, c ∈ indices (shape all_labels) → voxel all_labels c ≠ id skel) →
  cross_sectional_area all_labels (Single skel) opts
  = {| after := Single skel; sampled := []; raised := Some KeyError |}.
Proof.
  intros Hbool Hid Habsent. unfold cross_sectional_area. rewrite Hbool.
  unfold renumber. simpl. unfold annotate_skeleton.
  rewrite resolve_roi_unmapped; [done | done | done |].
  by apply renumber_mapping_absent.
Qed.

End AnnotateFacts.

(** ** Runs on the small instance *)

Section Runs.
Import Locator Skel Crop Annotate.
Local Open Scope Z_scope.

(** C1 (what the code does). In repair mode a vertex whose stored contacts
    value is 0 and whose stored area is 0 is sampled again: on the line of
    three vertices with the stored areas [0, 9, 9] and the stored contacts
    [0, 0, 0], the call samples the vertex 0 and writes its area and its
    contacts, which become 9 and 1. *)
Theorem repair_mode_resamples_zero_area :
  let skel := Toy.skeleton 5 Toy.line (Some [0; 9; 9]) (Some [0; 0; 0]) in
  let o := Toy.run [Toy.line] Toy.block (Single skel) Toy.unit_spacing 1 true in
  raised o = None ∧
  sampled o = [((0, 1, 1), (1, 0, 0))] ∧
  ∃ skel', after o = Single skel' ∧
    Skel.cross_sectional_area skel' = Some [9; 9; 9] ∧
    cross_sectional_area_contacts skel' = Some [1; 0; 0].
Proof. vm_compute. repeat split. eexists. repeat split. Qed.

(** C2 as the specification words it does not hold: on the second call in normal mode
    the three vertices whose stored area is 9 are not skipped, the sampling
    primitive is called for each of them again. *)
Lemma normal_mode_second_call_skips_nothing :
  let skel := Toy.skeleton 5 Toy.line None None in
  let once := Toy.run [Toy.line] Toy.block (Single skel) Toy.unit_spacing 1 false in
  let twice := Toy.run [Toy.line] Toy.block (after once) Toy.unit_spacing 1 false in
  (∃ skel', after once = Single skel' ∧
     Skel.cross_sectional_area skel' = Some [9; 9; 9]) ∧
  sampled twice
  = [((0, 1, 1), (1, 0, 0)); ((1, 1, 1), (1, 0, 0)); ((2, 1, 1), (1, 0, 0))].
Proof. vm_compute. split; [eexists; split; reflexivity | reflexivity]. Qed.

(** A run of C2. *)
Lemma normal_mode_second_call_repeats_first_witness :
  let skel := Toy.skeleton 5 Toy.line None None in
  let once := Toy.run [Toy.line] Toy.block (Single skel) Toy.unit_spacing 1 false in
  let twice := Toy.run [Toy.line] Toy.block (after once) Toy.unit_spacing 1 false in
  after twice = after once ∧ sampled twice = sampled once ∧ raised twice = None.
Proof.
  apply (@normal_mode_second_call_repeats_first coord coord coord Z
           Toy.rows Toy.area (Toy.collaborators [Toy.line])).
  - reflexivity.
  - vm_compute. reflexivity.
Defined.

(** C3 as the specification words it does not hold: the vertices 0 and 2 rasterize to
    the same voxel and end with the areas 0 and 9, and the sampling
    primitive is called twice for the voxel (3, 1, 1), where it returns a
    zero area. *)
Lemma colocated_vertices_differ :
  let skel := Toy.skeleton 5 Toy.forked None None in
  let o := Toy.run Toy.forked_paths Toy.block (Single skel) Toy.spacing4 1 false in
  @rasterize coord coord coord Z (Toy.collaborators Toy.forked_paths)
    Toy.spacing4 (4, 4, 4)
  = @rasterize coord coord coord Z (Toy.collaborators Toy.forked_paths)
      Toy.spacing4 (5, 4, 4) ∧
  (∃ skel', after o = Single skel' ∧
     Skel.cross_sectional_area skel' = Some [0; 9; 9; 0; 9; 0]) ∧
  map fst (sampled o) = [(1, 1, 1); (2, 1, 1); (3, 1, 1); (2, 2, 1); (3, 1, 1)].
Proof. vm_compute. repeat split. eexists. split; reflexivity. Qed.

(** A run of C3: two vertices at one voxel, inside the object. *)
Lemma colocated_vertices_one_representative_witness :
  let skel := Toy.skeleton 5 Toy.paired None None in
  let o := Toy.annotate Toy.paired_paths Toy.spacing4 1 false skel in
  NoDup (map fst (sampled o)) ∧
  ∃ areas contacts,
    Skel.cross_sectional_area (after o) = Some areas ∧
    cross_sectional_area_contacts (after o) = Some contacts ∧
    areas !! 0%nat = Some 0 ∧ contacts !! 0%nat = Some 0.
Proof.
  destruct (@colocated_vertices_one_representative coord coord coord Z
              Toy.rows Toy.area (Toy.collaborators Toy.paired_paths)
              (Toy.options Toy.spacing4 1 false)
              (renumber Toy.block).1 (renumber Toy.block).2
              (find_objects (renumber Toy.block).1)
              (Toy.skeleton 5 Toy.paired None None) 1 Toy.block_roi)
    as [Honce Harrays].
  - reflexivity.
  - vm_compute. reflexivity.
  - split.
    + apply Honce.
      match goal with |- Forall _ ?l =>
        let l' := eval vm_compute in l in
        replace l with l' by (vm_compute; reflexivity) end.
      repeat constructor; unfold nonzero_sample; vm_compute; reflexivity.
    + destruct Harrays as (areas & contacts & Ha & Hc & _ & _ & _ & Hzero).
      { vm_compute. reflexivity. }
      exists areas, contacts. split; [exact Ha|]. split; [exact Hc|].
      apply (Hzero 0%nat 2%nat (4, 4, 4) (5, 4, 4)); [lia | reflexivity..].
Defined.

(** A run of C4: the label 7 has no voxel in the volume. *)
Lemma absent_label_raises_key_error_witness :
  Toy.run [Toy.line] Toy.block (Single (Toy.skeleton 7 Toy.line None None))
    Toy.unit_spacing 1 false
  = {| after := Single (Toy.skeleton 7 Toy.line None None);
       sampled := []; raised := Some KeyError |}.
Proof.
  apply (@absent_label_raises_key_error coord coord coord Z
           Toy.rows Toy.area (Toy.collaborators [Toy.line])).
  - reflexivity.
  - simpl. lia.
  - intros [[x y] z] _. simpl. destruct (x <? 3); lia.
Defined.

(** C5 as the specification words it does not hold: a path of one vertex is not
    skipped, the call ends by an index error. *)
Lemma one_vertex_path_raises :
  raised (Toy.run [[(1, 1, 1)]] Toy.block (Single (Toy.skeleton 5 Toy.line None None))
            Toy.unit_spacing 1 false)
  = Some IndexError.
Proof. vm_compute. reflexivity. Qed.

(** A run of C5. *)
Lemma path_with_fewer_than_two_vertices_witness :
  Toy.annotate [[(1, 1, 1)]] Toy.unit_spacing 1 false (Toy.skeleton 5 Toy.line None None)
  = {| after := Toy.skeleton 5 Toy.line None None;
       sampled := []; raised := Some IndexError |}.
Proof.
  destruct (@path_with_fewer_than_two_vertices coord coord coord Z
              Toy.rows Toy.area (Toy.collaborators [[(1, 1, 1)]])
              (Toy.options Toy.unit_spacing 1 false)
              (renumber Toy.block).1 (renumber Toy.block).2
              (find_objects (renumber Toy.block).1)
              (Toy.skeleton 5 Toy.line None None) 1 Toy.block_roi [(1, 1, 1)])
    as (_ & _ & _ & Hfirst).
  - vm_compute. reflexivity.
  - simpl. apply list_elem_of_singleton. reflexivity.
  - simpl. lia.
  - apply (Hfirst []); [reflexivity | intros Hrepair; discriminate Hrepair].
Defined.

(** C6 (what the code does). A vertex whose coordinate equals the extent
    of the crop on an axis is not skipped: the crop of the block has the
    shape (4, 3, 3), the test [outside] is false for the voxel (4, 1, 1),
    and the sampling primitive is called for it. *)
Theorem vertex_at_crop_extent_is_sampled :
  let verts := [(3, 1, 1); (4, 1, 1)] in
  let o := Toy.run [verts] Toy.block (Single (Toy.skeleton 5 verts None None))
             Toy.unit_spacing 1 false in
  mshape (@binary_image coord coord coord Z (Toy.collaborators [verts])
            (Toy.options Toy.unit_spacing 1 false) (renumber Toy.block).1 1
            (grown Toy.block_roi)) = (4, 3, 3) ∧
  outside (4, 1, 1) (4, 3, 3) = false ∧
  map fst (sampled o) = [(3, 1, 1); (4, 1, 1)].
Proof. vm_compute. repeat split. Qed.

(** C7 as the specification words it does not hold: with a window of 0 and a skeleton
    of label 0 the call returns without an exception. *)
Lemma nonpositive_window_without_error :
  raised (Toy.run [Toy.line] Toy.block (Single (Toy.skeleton 0 Toy.line None None))
            Toy.unit_spacing 0 false)
  = None.
Proof. vm_compute. reflexivity. Qed.

(** A run of C7: a window of 0 on the line of three vertices. *)
Lemma nonpositive_window_raises_in_path_loop_witness :
  Toy.annotate [Toy.line] Toy.unit_spacing 0 false (Toy.skeleton 5 Toy.line None None)
  = {| after := Toy.skeleton 5 Toy.line None None;
       sampled := []; raised := Some ValueError |}.
Proof.
  destruct (@nonpositive_window_raises_in_path_loop coord coord coord Z
              Toy.rows Toy.area (Toy.collaborators [Toy.line])
              (Toy.options Toy.unit_spacing 0 false))
    as (_ & Hfirst & _).
  - simpl. lia.
  - apply (Hfirst _ _ _ _ 1 Toy.block_roi Toy.line []).
    + vm_compute. reflexivity.
    + intros Hrepair. discriminate Hrepair.
    + reflexivity.
    + simpl. lia.
Defined.


End Runs.

(** * Further properties of the code *)

(** ** More on the rolling average *)

Section SmootherEdges.
Import Smoother.
Context `{FloatRows V}.

(** X1. On an empty input the rolling average raises the value error for a
    window that is not positive, returns the empty input for a window of 1,
    and raises an index error at [a[0]] for every wider window. *)
Theorem moving_average_empty_input (n : Z) :
  moving_average (@nil V) n =
  if decide (n ≤ 0)%Z then Raise ValueError
  else if decide (n = 1%Z) then Return []
  else Raise IndexError.
Proof.
  unfold moving_average.
  destruct (Z.leb_spec n 0); case_decide; try lia; [done|].
  destruct (Z.eqb_spec n 1); case_decide; try lia; done.
Qed.

(** X2. For a window of 1 and for every window of 3 or more, the rolling
    average of a non-empty input returns, with exactly as many rows as the
    input. This holds also for a window wider than the input: the padding
    is then longer than the input itself. *)
Theorem moving_average_wide_window (a : list V) (n : Z) :
  a ≠ [] → (n = 1 ∨ 3 ≤ n)%Z →
  ∃ out, moving_average a n = Return out ∧ length out = length a.
Proof. intros Ha Hn. apply moving_average_length; [done | lia | lia]. Qed.

End SmootherEdges.

Lemma moving_average_wide_window_witness :
  ∃ out, Smoother.moving_average (H := Toy.rows) [(1, 0, 0); (0, 1, 0)]%Z 5 = Return out
         ∧ length out = 2%nat.
Proof.
  apply (moving_average_wide_window (H := Toy.rows) [(1, 0, 0); (0, 1, 0)]%Z 5).
  - discriminate.
  - right. lia.
Defined.

Section ExactRows.
Import Smoother.
Context `{FloatRows V}.
Hypothesis cast_exact : ∀ x : V, to_float x = x.
Hypothesis vadd_assoc : ∀ x y z : V, vadd (vadd x y) z = vadd x (vadd y z).
Hypothesis vsub_vadd : ∀ x y : V, vsub (vadd x y) x = y.







End ExactRows.




(** ** More on the orchestrator *)

Section OrchestratorFacts.
Import Locator Skel Crop Annotate.
Context {P Aniso V A : Type}.
Context `{!FloatRows V, !AreaValue A, !Collaborators P Aniso V A}.
Implicit Types (opts : Options (Aniso := Aniso)) (st : Sampling (V := V) (A := A)).
Implicit Types (mapping : gmap coord nat) (binimg : Mask) (normals : list V).
Implicit Types (all_labels : Volume) (remapping : gmap Z Z).
Implicit Types (all_slices : list (option slices)) (skel : Skeleton P A).

Lemma measure_unfold opts all_labels (label : Z) (roi : Bbox) skel :
  measure opts all_labels label roi skel =
  match initial_arrays opts skel (length (vertices skel)) with
  | Raise e => fails skel e
  | Return (areas0, contacts0) =>
      match sampling_run opts all_labels label roi skel areas0 contacts0 with
      | (st, Some e) =>
          {| after := if repair_contacts opts
                      then set_arrays skel (extra_attributes skel) st else skel;
             sampled := calls st; raised := Some e |}
      | (st, None) =>
          {| after := set_arrays skel (with_prop (extra_attributes skel)) st;
             sampled := calls st; raised := None |}
      end
  end.
Proof. unfold measure, sampling_run. by rewrite length_to_crop. Qed.

(** *** Where the sampling primitive is called *)

Lemma sampling_calls_inside opts binimg (origin : coord) mapping
    (paths : list (list P)) st :
  calls st = [] →
  let st' := (for_each (trace_path opts binimg origin mapping) paths st).1 in
  ∀ c n, (c, n) ∈ calls st' →
    outside c (mshape binimg) = false ∧ ∃ idx, mapping !! c = Some idx.
Proof.
  intros Hcalls.
  apply (sampling_invariant opts binimg origin mapping
    (λ s, ∀ c n, (c, n) ∈ calls s →
            outside c (mshape binimg) = false ∧ ∃ idx, mapping !! c = Some idx)).
  - intros normals [i vert] s Hs.
    destruct (visit_cases opts binimg mapping normals i vert s)
      as [->|(idx & normal & Hout & Hidx & _ & _ & ->)]; [done|].
    unfold stored. simpl. intros c n Hin.
    apply elem_of_app in Hin as [Hin|Hin]; [by eapply Hs|].
    apply list_elem_of_singleton in Hin. inversion Hin; subst. eauto.
  - intros c n Hin. rewrite Hcalls in Hin. by apply elem_of_nil in Hin.
Qed.

(** X5. The sampling primitive is only ever called at the crop coordinate of a
    vertex of the skeleton, and only where no component of that coordinate
    is negative or greater than the extent of the crop. This holds in both
    modes and also for the calls made before an exception. *)
Theorem sampler_called_at_vertices_in_crop opts all_labels remapping all_slices skel
    (label : Z) (roi : Bbox) :
  resolve_roi all_labels remapping all_slices skel = Return (Some (label, roi)) →
  let o := annotate_skeleton opts all_labels remapping all_slices skel in
  let shape := mshape (binary_image opts all_labels label (grown roi)) in
  ∀ c n, (c, n) ∈ sampled o →
    ((0 ≤ px c ≤ px shape)%Z ∧ (0 ≤ py c ≤ py shape)%Z ∧ (0 ≤ pz c ≤ pz shape)%Z) ∧
    ∃ k p, vertices skel !! k = Some p ∧
           sub3 (rasterize (anisotropy opts) p) (minpt (grown roi)) = c.
Proof.
  intros Hroi. cbv zeta.
  rewrite (annotate_skeleton_resolved _ _ _ _ _ _ _ Hroi), measure_unfold.
  destruct (initial_arrays opts skel _) as [e|[areas0 contacts0]].
  { intros c n Hin. by apply elem_of_nil in Hin. }
  pose proof (sampling_calls_inside opts (binary_image opts all_labels label (grown roi))
    (minpt (grown roi)) (build_mapping (to_crop opts (minpt (grown roi)) (vertices skel)))
    (skeleton_paths (vertices skel) (edges skel))
    {| areas := areas0; contacts := contacts0; calls := [] |} eq_refl) as Hinside.
  cbv zeta in Hinside.
  fold (sampling_run opts all_labels label roi skel areas0 contacts0) in Hinside.
  assert (∀ c n, (c, n) ∈ calls (sampling_run opts all_labels label roi skel areas0 contacts0).1 →
    ((0 ≤ px c ≤ px (mshape (binary_image opts all_labels label (grown roi))))%Z ∧
     (0 ≤ py c ≤ py (mshape (binary_image opts all_labels label (grown roi))))%Z ∧
     (0 ≤ pz c ≤ pz (mshape (binary_image opts all_labels label (grown roi))))%Z) ∧
    ∃ k p, vertices skel !! k = Some p ∧
           sub3 (rasterize (anisotropy opts) p) (minpt (grown roi)) = c) as Hall.
  { intros c n Hin. destruct (Hinside c n Hin) as (Hout & idx & Hidx). split.
    - destruct (outside c _) eqn:E; [done|].
      assert (¬ (px c < 0 ∨ py c < 0 ∨ pz c < 0 ∨
                 px c > px (mshape (binary_image opts all_labels label (grown roi))) ∨
                 py c > py (mshape (binary_image opts all_labels label (grown roi))) ∨
                 pz c > pz (mshape (binary_image opts all_labels label (grown roi))))%Z) as Hn.
      { intros Hc. apply outside_spec in Hc. congruence. }
      lia.
    - apply build_mapping_lookup in Hidx as [Hk _]. rewrite to_crop_lookup in Hk.
      destruct (vertices skel !! idx) as [p|] eqn:Hp; [|done].
      exists idx, p. split; [done|]. simpl in Hk. by inversion Hk. }
  destruct (sampling_run _ _ _ _ _ _ _) as [st [e|]]; simpl in *; exact Hall.
Qed.

(** *** What a call leaves of a skeleton *)

(** X6. In normal mode a call that ends by an exception leaves the skeleton as
    it was: the new arrays reach the skeleton only once all its paths are
    done. *)
Theorem normal_mode_exception_leaves_skeleton opts all_labels remapping all_slices skel :
  repair_contacts opts = false →
  raised (annotate_skeleton opts all_labels remapping all_slices skel) ≠ None →
  after (annotate_skeleton opts all_labels remapping all_slices skel) = skel.
Proof.
  intros Hnormal. unfold annotate_skeleton.
  destruct (resolve_roi all_labels remapping all_slices skel) as [e|[[label roi]|]];
    [done | | done].
  rewrite measure_normal by done.
  by destruct (sampling_run _ _ _ _ _ _ _) as [st [e|]].
Qed.

Lemma annotate_skeleton_geometry opts all_labels remapping all_slices skel :
  let s' := after (annotate_skeleton opts all_labels remapping all_slices skel) in
  id s' = id skel ∧ vertices s' = vertices skel ∧ edges s' = edges skel.
Proof.
  cbv zeta. unfold annotate_skeleton.
  destruct (resolve_roi all_labels remapping all_slices skel) as [e|[[label roi]|]];
    [done | | done].
  rewrite measure_unfold.
  destruct (initial_arrays opts skel _) as [e|[areas0 contacts0]]; [done|].
  destruct (sampling_run _ _ _ _ _ _ _) as [st [e|]]; simpl; [|done].
  by destruct (repair_contacts opts).
Qed.

Lemma annotate_all_geometry opts all_labels remapping all_slices
    (skels : list (Skeleton P A)) :
  Forall2 (λ s s', id s' = id s ∧ vertices s' = vertices s ∧ edges s' = edges s)
          skels (after (annotate_all opts all_labels remapping all_slices skels)).
Proof.
  induction skels as [|skel skels IH]; simpl; [constructor|].
  pose proof (annotate_skeleton_geometry opts all_labels remapping all_slices skel) as Hg.
  destruct (raised (annotate_skeleton _ _ _ _ skel)); simpl.
  - constructor; [done|]. by apply Forall_Forall2_diag, Forall_forall.
  - by constructor.
Qed.

(** X7. Whatever the mode and however the call ends, it returns the container
    it was given: a dict with the same keys in the same order, a list of
    the same length, or one skeleton; and every skeleton in it has the id,
    the vertices and the edges it had. *)
Theorem call_keeps_container_and_geometry all_labels (skeletons : Skeletons P A) opts :
  let o := cross_sectional_area all_labels skeletons opts in
  match skeletons, after o with
  | AsDict d, AsDict d' => map fst d' = map fst d
  | AsList _, AsList _ => True
  | Single _, Single _ => True
  | _, _ => False
  end ∧
  Forall2 (λ s s', id s' = id s ∧ vertices s' = vertices s ∧ edges s' = edges s)
          (iterator skeletons) (iterator (after o)).
Proof.
  cbv zeta. unfold cross_sectional_area.
  destruct (if dtype_bool all_labels then (all_labels, bool_remapping)
            else renumber all_labels) as [labels remapping].
  simpl.
  pose proof (length_annotate_all opts labels remapping (find_objects labels)
                (iterator skeletons)) as Hlen.
  split.
  - destruct skeletons as [d|l|s]; simpl in *; [|done..].
    rewrite length_map in Hlen. rewrite !map_fmap. apply fst_zip.
    rewrite length_fmap. lia.
  - rewrite iterator_restore by done. apply annotate_all_geometry.
Qed.

(** *** The attribute descriptor *)

Lemma needs_prop_filter (attrs : list Attribute) :
  needs_prop attrs = true ↔
  filter (λ a, attr_id a = "cross_sectional_area") attrs = [].
Proof.
  unfold needs_prop. induction attrs as [|a attrs IH]; simpl; [done|].
  rewrite filter_cons. destruct (String.eqb_spec (attr_id a) "cross_sectional_area") as [E|E].
  - simpl. rewrite decide_True by done. done.
  - simpl. rewrite decide_False by done. exact IH.
Qed.

(** X8. A skeleton that has been measured has the descriptor of
    [cross_sectional_area] in its list of attributes: the list is the one
    it had when that already held an entry with this id (however many),
    and otherwise the one it had with the descriptor added at the end. The
    number of entries with this id is never raised above what it was,
    except from 0 to 1. A call that raises leaves the list as it was. *)
Theorem attribute_descriptor_added_once opts all_labels remapping all_slices skel
    (label : Z) (roi : Bbox) :
  resolve_roi all_labels remapping all_slices skel = Return (Some (label, roi)) →
  let o := annotate_skeleton opts all_labels remapping all_slices skel in
  let is_csa := λ a : Attribute, attr_id a = "cross_sectional_area" in
  let before := extra_attributes skel in
  let now := extra_attributes (after o) in
  (raised o ≠ None → now = before) ∧
  (raised o = None →
   (filter is_csa before = [] → now = before ++ [prop]) ∧
   (filter is_csa before ≠ [] → now = before) ∧
   length (filter is_csa now) = (length (filter is_csa before) `max` 1)%nat).
Proof.
  intros Hroi. cbv zeta.
  rewrite (annotate_skeleton_resolved _ _ _ _ _ _ _ Hroi), measure_unfold.
  destruct (initial_arrays opts skel _) as [e|[areas0 contacts0]]; [done|].
  destruct (sampling_run _ _ _ _ _ _ _) as [st [e|]]; simpl.
  { split; [|done]. intros _. by destruct (repair_contacts opts). }
  split; [done|]. intros _. unfold with_prop.
  destruct (needs_prop (extra_attributes skel)) eqn:E.
  - apply needs_prop_filter in E. split; [done|]. split; [done|].
    rewrite filter_app, E. done.
  - assert (filter (λ a, attr_id a = "cross_sectional_area") (extra_attributes skel) ≠ [])
      as Hne.
    { intros Hnil. apply needs_prop_filter in Hnil. congruence. }
    split; [done|]. split; [done|].
    destruct (filter _ (extra_attributes skel)); [done | simpl; lia].
Qed.

(** *** The lengths of the two arrays *)

(** X9. After a call in normal mode that measured the skeleton, the two arrays
    have one entry for each vertex. In repair mode the arrays keep the
    lengths they had, whether the call raises or not. *)
Theorem arrays_keep_their_lengths opts all_labels remapping all_slices skel
    (label : Z) (roi : Bbox) :
  resolve_roi all_labels remapping all_slices skel = Return (Some (label, roi)) →
  let o := annotate_skeleton opts all_labels remapping all_slices skel in
  (repair_contacts opts = false → raised o = None →
   ∃ areas1 contacts1,
     Skel.cross_sectional_area (after o) = Some areas1 ∧
     cross_sectional_area_contacts (after o) = Some contacts1 ∧
     length areas1 = length (vertices skel) ∧
     length contacts1 = length (vertices skel)) ∧
  (repair_contacts opts = true →
   ∀ areas0 contacts0,
     Skel.cross_sectional_area skel = Some areas0 →
     cross_sectional_area_contacts skel = Some contacts0 →
     ∃ areas1 contacts1,
       Skel.cross_sectional_area (after o) = Some areas1 ∧
       cross_sectional_area_contacts (after o) = Some contacts1 ∧
       length areas1 = length areas0 ∧ length contacts1 = length contacts0).
Proof.
  intros Hroi. cbv zeta.
  rewrite (annotate_skeleton_resolved _ _ _ _ _ _ _ Hroi). split.
  - intros Hnormal. rewrite measure_normal by done.
    pose proof (sampling_run_lengths opts all_labels label roi skel
      (replicate (length (vertices skel)) area_zero)
      (replicate (length (vertices skel)) 0%Z)) as [Ha Hc].
    rewrite length_replicate in Ha. rewrite length_replicate in Hc.
    destruct (sampling_run _ _ _ _ _ _ _) as [st [e|]]; simpl in *; [done|].
    intros _. by exists (areas st), (contacts st).
  - intros Hrepair areas0 contacts0 Ha0 Hc0.
    rewrite (measure_repair _ _ _ _ _ areas0 contacts0) by done.
    pose proof (sampling_run_lengths opts all_labels label roi skel areas0 contacts0)
      as [Ha Hc].
    destruct (sampling_run _ _ _ _ _ _ _) as [st [e|]]; simpl in *;
      by exists (areas st), (contacts st).
Qed.

(** *** Skeletons of the background *)

Lemma annotate_all_skipped opts all_labels remapping all_slices
    (skels : list (Skeleton P A)) :
  (∀ skel, skel ∈ skels →
     resolve_roi all_labels remapping all_slices skel = Return None) →
  annotate_all opts all_labels remapping all_slices skels
  = {| after := skels; sampled := []; raised := None |}.
Proof.
  induction skels as [|skel skels IH]; intros Hall; simpl; [done|].
  unfold annotate_skeleton. rewrite (Hall skel) by left. simpl.
  rewrite IH; [done|]. intros s Hs. apply Hall. by right.
Qed.

Lemma restore_iterator (skeletons : Skeletons P A) :
  restore skeletons (iterator skeletons) = skeletons.
Proof.
  destruct skeletons as [d|l|s]; simpl; [|done..]. f_equal.
  induction d as [|[k s] d IH]; simpl; [done | by rewrite IH].
Qed.

(** X10. On a volume that is not boolean, skeletons whose id is the background
    label 0 are skipped before anything else is looked at: a call on
    skeletons that all have the id 0 returns them as they are, without a
    call of the sampling primitive and without an exception, whatever the
    window and the mode. *)
Theorem background_skeletons_are_skipped all_labels (skeletons : Skeletons P A) opts :
  dtype_bool all_labels = false →
  (∀ skel, skel ∈ iterator skeletons → id skel = 0%Z) →
  cross_sectional_area all_labels skeletons opts
  = {| after := skeletons; sampled := []; raised := None |}.
Proof.
  intros Hbool Hids. unfold cross_sectional_area. rewrite Hbool.
  unfold renumber. simpl.
  rewrite annotate_all_skipped.
  - simpl. by rewrite restore_iterator.
  - intros skel Hskel. unfold resolve_roi. simpl. rewrite Hbool.
    by rewrite (Hids skel Hskel).
Qed.

End OrchestratorFacts.

Section LoopFacts.
Context {X S : Type}.
Implicit Types (body : X → S → S * option exn) (l : list X) (st : S).

(** A loop whose body never raises in a state of the invariant returns. *)
Lemma for_each_returns body (I : S → Prop) l st :
  (∀ x s, x ∈ l → I s → (body x s).2 = None ∧ I (body x s).1) →
  I st → (for_each body l st).2 = None.
Proof.
  revert st. induction l as [|x l IH]; intros st Hbody Hst; simpl; [done|].
  destruct (Hbody x st ltac:(left) Hst) as [Hnone Hinv].
  destruct (body x st) as [st' [e|]]; simpl in *; [done|].
  apply IH; [|done]. intros y s Hy. apply Hbody. by right.
Qed.

(** What each iteration establishes for its element, and no iteration
    undoes, holds for every element when the loop returns. *)
Lemma for_each_covers body (I : S → Prop) (Q : X → S → Prop) l st :
  (∀ x s, I s → I (body x s).1) →
  (∀ x y s, Q y s → Q y (body x s).1) →
  (∀ x s, x ∈ l → I s → (body x s).2 = None → Q x (body x s).1) →
  I st → (for_each body l st).2 = None →
  ∀ x, x ∈ l → Q x (for_each body l st).1.
Proof.
  intros Hinv Hmono. revert st.
  induction l as [|x l IH]; intros st Hest Hst Hnone y Hy.
  { by apply elem_of_nil in Hy. }
  simpl in *.
  pose proof (Hinv x st Hst) as Hst'.
  pose proof (Hest x st ltac:(left) Hst) as Hq.
  destruct (body x st) as [st' [e|]]; simpl in *; [done|].
  apply elem_of_cons in Hy as [->|Hy].
  - apply (for_each_invariant body (Q x)); [|by apply Hq].
    intros z s _. apply Hmono.
  - apply IH; try done. intros z s Hz. apply Hest. by right.
Qed.

End LoopFacts.

Section OrchestratorRuns.
Import Locator Skel Crop Annotate.
Context {P Aniso V A : Type}.
Context `{!FloatRows V, !AreaValue A, !Collaborators P Aniso V A}.
Implicit Types (opts : Options (Aniso := Aniso)) (st : Sampling (V := V) (A := A)).
Implicit Types (mapping : gmap coord nat) (binimg : Mask) (normals : list V).
Implicit Types (all_labels : Volume) (remapping : gmap Z Z).
Implicit Types (all_slices : list (option slices)) (skel : Skeleton P A).

(** *** The coordinate to index map *)

(** X4. The map of the dict comprehension has exactly the coordinates of the
    vertices as keys, and sends each to the greatest index of a vertex with
    that coordinate. *)
Theorem coordinate_map_keeps_last_index (all_verts : list coord) (c : coord) :
  (c ∉ all_verts → build_mapping all_verts !! c = None) ∧
  (c ∈ all_verts →
   ∃ i, build_mapping all_verts !! c = Some i ∧ all_verts !! i = Some c ∧
        ∀ j, all_verts !! j = Some c → (j ≤ i)%nat).
Proof.
  split.
  - intros Hc. destruct (build_mapping all_verts !! c) as [i|] eqn:E; [|done].
    apply build_mapping_lookup in E as [E _]. exfalso. apply Hc.
    by eapply list_elem_of_lookup_2.
  - intros Hc. destruct (build_mapping_total all_verts c Hc) as [i Hi].
    exists i. split; [done|]. apply build_mapping_lookup in Hi as [Hi Hlast].
    split; [done|]. intros j Hj.
    destruct (decide (j ≤ i)%nat) as [|Hgt]; [done|].
    exfalso. apply (Hlast j); [lia | done].
Qed.

(** *** Calls that return *)

Lemma path_normals_length opts (path : list coord) :
  (2 ≤ length path)%nat → (1 ≤ smoothing_window opts)%Z →
  smoothing_window opts ≠ 2%Z →
  ∃ normals, path_normals opts path = Return normals ∧ length normals = length path.
Proof.
  intros Hlen Hw Hw2. unfold path_normals.
  set (diffs := map astype_float32
                  (zip_with sub3 (slice_from 1 path) (slice_upto_neg 1 path))).
  assert (length diffs = (length path - 1)%nat) as Hd.
  { unfold diffs. by rewrite length_map, length_differences. }
  destruct (index_last_is_Return diffs) as [last ->].
  { intros Hnil. rewrite Hnil in Hd. simpl in Hd. lia. }
  simpl.
  destruct (moving_average_length (diffs ++ [last]) (smoothing_window opts))
    as (out & -> & Hout).
  { by destruct diffs. }
  { done. }
  { done. }
  simpl. eexists. split; [done|].
  rewrite length_map, Hout, length_app. simpl. lia.
Qed.

Lemma elem_of_enumerate {B} (l : list B) (i : nat) (x : B) :
  (i, x) ∈ enumerate l ↔ l !! i = Some x.
Proof.
  unfold enumerate. rewrite elem_of_lookup_imap. split.
  - intros (j & y & Heq & Hj). by inversion Heq; subst.
  - intros Hi. by exists i, x.
Qed.

Lemma visit_returns opts binimg (all_verts : list coord) normals (i : nat)
    (vert : coord) st :
  repair_contacts opts = false →
  length (areas st) = length all_verts →
  length (contacts st) = length all_verts →
  vert ∈ all_verts → (i < length normals)%nat →
  (visit opts binimg (build_mapping all_verts) normals (i, vert) st).2 = None.
Proof.
  intros Hnormal Ha Hc Hvert Hi. unfold visit, getitem.
  destruct (outside vert (mshape binimg)); [done|].
  destruct (build_mapping_total all_verts vert Hvert) as [idx Hidx]. rewrite Hidx.
  apply build_mapping_lookup in Hidx as [Hidx _]. apply lookup_lt_Some in Hidx.
  rewrite index_of_nat. destruct (lookup_lt_is_Some_2 normals i Hi) as [normal ->].
  unfold wants_sample. rewrite (index_of_nat (areas st)).
  destruct (lookup_lt_is_Some_2 (areas st) idx ltac:(lia)) as [a ->]. simpl.
  rewrite Hnormal. destruct (is_zero a); simpl; [|done].
  unfold sample. destruct (xs3d _ _ _ _) as [area contact].
  destruct (decide (idx < length (areas st))%nat); [|lia].
  by destruct (decide (idx < length (contacts st))%nat); [|lia].
Qed.

(** X11. In normal mode, with a window of 1 or of 3 or more, once the
    decomposition of the skeleton has returned its paths, the rest of the
    call for the skeleton returns without an exception when every path has
    2 vertices or more and every vertex of a path rasterizes to the voxel
    of some vertex of the skeleton. (With a window of 2 the rolling average
    raises, and a failure of the library call [skel.paths()] itself is
    outside the embedding.) *)
Theorem normal_mode_returns opts all_labels remapping all_slices skel
    (label : Z) (roi : Bbox) :
  repair_contacts opts = false →
  (smoothing_window opts = 1 ∨ 3 ≤ smoothing_window opts)%Z →
  resolve_roi all_labels remapping all_slices skel = Return (Some (label, roi)) →
  (∀ path, path ∈ skeleton_paths (vertices skel) (edges skel) →
     (2 ≤ length path)%nat ∧
     ∀ p, p ∈ path → ∃ q, q ∈ vertices skel ∧
       rasterize (anisotropy opts) p = rasterize (anisotropy opts) q) →
  raised (annotate_skeleton opts all_labels remapping all_slices skel) = None.
Proof.
  intros Hnormal Hw Hroi Hpaths.
  rewrite (annotate_skeleton_resolved _ _ _ _ _ _ _ Hroi), measure_normal by done.
  set (n := length (vertices skel)).
  set (all_verts := to_crop opts (minpt (grown roi)) (vertices skel)).
  assert (length all_verts = n) as Hn by apply length_to_crop.
  assert ((sampling_run opts all_labels label roi skel
             (replicate n area_zero) (replicate n 0%Z)).2 = None) as Hnone.
  { unfold sampling_run.
    apply (for_each_returns _
      (λ s, length (areas s) = length all_verts ∧ length (contacts s) = length all_verts)).
    2:{ simpl. by rewrite !length_replicate. }
    intros path s Hpath [Ha Hc]. destruct (Hpaths path Hpath) as [Hlen Hverts].
    unfold trace_path.
    destruct (path_normals_length opts (to_crop opts (minpt (grown roi)) path))
      as (normals & -> & Hnormals); [by rewrite length_to_crop | lia | lia |].
    assert (∀ iv s', iv ∈ enumerate (to_crop opts (minpt (grown roi)) path) →
              length (areas s') = length all_verts ∧
              length (contacts s') = length all_verts →
              (visit opts (binary_image opts all_labels label (grown roi))
                 (build_mapping all_verts) normals iv s').2 = None ∧
              (length (areas (visit opts (binary_image opts all_labels label (grown roi))
                 (build_mapping all_verts) normals iv s').1) = length all_verts ∧
               length (contacts (visit opts (binary_image opts all_labels label (grown roi))
                 (build_mapping all_verts) normals iv s').1) = length all_verts)) as Hvisit.
    { intros [i vert] s' Hiv [Ha' Hc']. split.
      - apply elem_of_enumerate in Hiv.
        apply visit_returns; try done.
        + rewrite to_crop_lookup in Hiv.
          destruct (path !! i) as [p|] eqn:Hp; [|done]. simpl in Hiv.
          inversion Hiv as [Hv].
          destruct (Hverts p) as (q & Hq & Heq); [by eapply list_elem_of_lookup_2|].
          rewrite Heq. unfold all_verts, to_crop. rewrite map_fmap.
          by apply (list_elem_of_fmap_2
                      (λ p0, sub3 (rasterize (anisotropy opts) p0) (minpt (grown roi)))).
        + rewrite Hnormals. by eapply lookup_lt_Some.
      - destruct (visit_lengths opts (binary_image opts all_labels label (grown roi))
                    (build_mapping all_verts) normals (i, vert) s') as [-> ->]. done. }
    split.
    - by apply (for_each_returns _
        (λ s, length (areas s) = length all_verts ∧ length (contacts s) = length all_verts)).
    - apply (for_each_invariant _
        (λ s, length (areas s) = length all_verts ∧ length (contacts s) = length all_verts));
        [|done].
      intros iv s' Hiv Hs'. by apply Hvisit. }
  by destruct (sampling_run _ _ _ _ _ _ _) as [st [e|]].
Qed.

(** *** Path vertices that are no vertices of the skeleton *)

Lemma visit_unmapped_raises opts binimg mapping normals (i : nat) (vert : coord) st :
  outside vert (mshape binimg) = false → mapping !! vert = None →
  visit opts binimg mapping normals (i, vert) st = (st, Some KeyError).
Proof. intros Hout Hnone. unfold visit, getitem. by rewrite Hout, Hnone. Qed.

(** X12. A vertex of a path that lies in the crop and rasterizes to the voxel
    of no vertex of the skeleton is a missing key of the coordinate map:
    the call ends by an exception. When it is the first vertex of the
    first path and the window is 1 or 3 or more (so that the rolling
    average returns), the exception is the key error, nothing has been
    sampled and the skeleton is as it was. *)
Theorem foreign_path_vertex_raises opts all_labels remapping all_slices skel
    (label : Z) (roi : Bbox) (path : list P) (p : P) :
  resolve_roi all_labels remapping all_slices skel = Return (Some (label, roi)) →
  path ∈ skeleton_paths (vertices skel) (edges skel) → p ∈ path →
  outside (sub3 (rasterize (anisotropy opts) p) (minpt (grown roi)))
          (mshape (binary_image opts all_labels label (grown roi))) = false →
  (∀ q, q ∈ vertices skel →
     rasterize (anisotropy opts) q ≠ rasterize (anisotropy opts) p) →
  let o := annotate_skeleton opts all_labels remapping all_slices skel in
  raised o ≠ None ∧
  (∀ rest_path rest,
     path = p :: rest_path →
     skeleton_paths (vertices skel) (edges skel) = path :: rest →
     (1 ≤ length rest_path)%nat →
     (smoothing_window opts = 1 ∨ 3 ≤ smoothing_window opts)%Z →
     (repair_contacts opts = true →
      is_Some (Skel.cross_sectional_area skel) ∧
      is_Some (cross_sectional_area_contacts skel)) →
     o = {| after := skel; sampled := []; raised := Some KeyError |}).
Proof.
  intros Hroi Hpath Hp Hout Hforeign. cbv zeta.
  assert (build_mapping (to_crop opts (minpt (grown roi)) (vertices skel))
            !! sub3 (rasterize (anisotropy opts) p) (minpt (grown roi)) = None) as Hnone.
  { destruct (build_mapping _ !! _) as [k|] eqn:E; [|done].
    apply build_mapping_lookup in E as [E _]. rewrite to_crop_lookup in E.
    destruct (vertices skel !! k) as [q|] eqn:Hq; [|done]. simpl in E.
    inversion E as [Hc]. apply sub3_inj in Hc.
    exfalso. apply (Hforeign q); [by eapply list_elem_of_lookup_2 | done]. }
  rewrite (annotate_skeleton_resolved _ _ _ _ _ _ _ Hroi). split.
  - rewrite measure_unfold.
    destruct (initial_arrays opts skel _) as [e|[areas0 contacts0]]; [done|].
    assert ((sampling_run opts all_labels label roi skel areas0 contacts0).2 ≠ None)
      as Hraise.
    { unfold sampling_run. apply (for_each_raises _ _ path); [done|].
      intros s. unfold trace_path.
      destruct (path_normals opts _) as [e|normals]; [done|].
      apply list_elem_of_lookup_1 in Hp as [i Hi].
      apply (for_each_raises _ _
               (i, sub3 (rasterize (anisotropy opts) p) (minpt (grown roi)))).
      - apply elem_of_enumerate. rewrite to_crop_lookup, Hi. done.
      - intros s'. by rewrite visit_unmapped_raises. }
    by destruct (sampling_run _ _ _ _ _ _ _) as [st [e|]].
  - intros rest_path rest -> Hpaths Hlen Hw Harrays.
    assert (∀ s, trace_path opts (binary_image opts all_labels label (grown roi))
                   (minpt (grown roi))
                   (build_mapping (to_crop opts (minpt (grown roi)) (vertices skel)))
                   (p :: rest_path) s = (s, Some KeyError)) as Htrace.
    { intros s. unfold trace_path.
      destruct (path_normals_length opts (to_crop opts (minpt (grown roi)) (p :: rest_path)))
        as (normals & -> & _); [rewrite length_to_crop; simpl; lia | lia | lia |].
      unfold to_crop, enumerate. cbn [map imap for_each].
      by rewrite visit_unmapped_raises. }
    destruct (repair_contacts opts) eqn:Hmode.
    + destruct (Harrays eq_refl) as [[areas0 Ha] [contacts0 Hc]].
      rewrite (measure_repair _ _ _ _ _ areas0 contacts0) by done.
      unfold sampling_run. rewrite Hpaths. simpl.
      rewrite Htrace. f_equal. by apply set_arrays_same.
    + rewrite measure_normal by done.
      unfold sampling_run. rewrite Hpaths. simpl.
      by rewrite Htrace.
Qed.

(** *** Every vertex of a path is sampled *)

Lemma wants_sample_false (repair : bool) st (idx : nat) :
  wants_sample repair st idx = Return false →
  ∃ a, areas st !! idx = Some a ∧ is_zero a = false.
Proof.
  unfold wants_sample. rewrite (index_of_nat (areas st)).
  destruct (areas st !! idx) as [a|]; [|done]. simpl.
  destruct (is_zero a) eqn:E; [done|]. intros _. by exists a.
Qed.

Lemma visit_returned opts binimg mapping normals (i : nat) (vert : coord) st :
  (visit opts binimg mapping normals (i, vert) st).2 = None →
  outside vert (mshape binimg) = false →
  ∃ idx, mapping !! vert = Some idx ∧
    ((∃ a, areas st !! idx = Some a ∧ is_zero a = false) ∨
     ∃ normal, (visit opts binimg mapping normals (i, vert) st).1
               = stored opts binimg vert normal idx st).
Proof.
  intros Hnone Hout.
  destruct (visit_cases opts binimg mapping normals i vert st)
    as [Hsame|(idx & normal & _ & Hidx & _ & _ & Hstored)].
  - revert Hnone. unfold visit, getitem. rewrite Hout.
    destruct (mapping !! vert) as [idx|]; [|done].
    destruct (index normals (Z.of_nat i)) as [e|normal]; [done|].
    destruct (wants_sample (repair_contacts opts) st idx) as [e|[|]] eqn:Hw; [done| |].
    + intros _. exists idx. split; [done|]. right. exists normal.
      revert Hsame. unfold visit, getitem. rewrite Hout.
      intros _. apply sample_stored.
      apply wants_sample_true in Hw as (a & Ha & _). by eapply lookup_lt_Some.
    + intros _. exists idx. split; [done|]. left. by eapply wants_sample_false.
  - exists idx. split; [done|]. right. by exists normal.
Qed.

Lemma visit_unsampled_are_zero opts binimg mapping normals (iv : nat * coord) st :
  (∀ c c' k, mapping !! c = Some k → mapping !! c' = Some k → c = c') →
  unsampled_are_zero mapping st →
  unsampled_are_zero mapping (visit opts binimg mapping normals iv st).1.
Proof.
  intros Hinj Hinv. destruct iv as [i vert].
  destruct (visit_cases opts binimg mapping normals i vert st)
    as [->|(idx & normal & _ & Hidx & _ & _ & ->)]; [done|].
  intros c k Hk Hc. unfold stored in *. simpl in *.
  rewrite map_app in Hc. simpl in Hc.
  assert (c ≠ vert) as Hne.
  { intros ->. apply Hc. apply elem_of_app. right. by apply list_elem_of_singleton. }
  assert (idx ≠ k) as Hneq by (intros <-; by apply Hne, (Hinj c vert idx)).
  rewrite list_lookup_insert_ne by done. apply (Hinv c k Hk).
  intros Hin. apply Hc. apply elem_of_app. by left.
Qed.

Lemma visit_calls_grow opts binimg mapping normals (iv : nat * coord) st (c : coord) :
  c ∈ map fst (calls st) →
  c ∈ map fst (calls (visit opts binimg mapping normals iv st).1).
Proof.
  intros Hc. destruct iv as [i vert].
  destruct (visit_cases opts binimg mapping normals i vert st)
    as [->|(idx & normal & _ & _ & _ & _ & ->)]; [done|].
  unfold stored. simpl. rewrite map_app. apply elem_of_app. by left.
Qed.

(** X13. In normal mode, when the call for a skeleton returns, every vertex of
    every path whose crop coordinate passes the test on the crop has been
    sampled: its coordinate is among the calls of the sampling primitive. *)
Theorem normal_mode_samples_every_path_vertex opts all_labels remapping all_slices skel
    (label : Z) (roi : Bbox) :
  repair_contacts opts = false →
  resolve_roi all_labels remapping all_slices skel = Return (Some (label, roi)) →
  let o := annotate_skeleton opts all_labels remapping all_slices skel in
  raised o = None →
  ∀ path p, path ∈ skeleton_paths (vertices skel) (edges skel) → p ∈ path →
    let c := sub3 (rasterize (anisotropy opts) p) (minpt (grown roi)) in
    outside c (mshape (binary_image opts all_labels label (grown roi))) = false →
    c ∈ map fst (sampled o).
Proof.
  intros Hnormal Hroi. cbv zeta.
  rewrite (annotate_skeleton_resolved _ _ _ _ _ _ _ Hroi), measure_normal by done.
  set (n := length (vertices skel)).
  set (origin := minpt (grown roi)).
  set (binimg := binary_image opts all_labels label (grown roi)).
  set (mapping := build_mapping (to_crop opts origin (vertices skel))).
  set (Q := λ (v : coord) (s : Sampling (V := V) (A := A)),
              outside v (mshape binimg) = false → v ∈ map fst (calls s)).
  assert (∀ normals iv s c, Q c s → Q c (visit opts binimg mapping normals iv s).1) as Hmono.
  { intros normals iv s c Hq Hout. by apply visit_calls_grow, Hq. }
  assert (∀ normals iv s, unsampled_are_zero mapping s →
            unsampled_are_zero mapping (visit opts binimg mapping normals iv s).1) as Hinv.
  { intros normals iv s. apply visit_unsampled_are_zero. apply build_mapping_inj. }
  assert (∀ path c, c ∈ to_crop opts origin path →
            let r := sampling_run opts all_labels label roi skel
                       (replicate n area_zero) (replicate n 0%Z) in
            path ∈ skeleton_paths (vertices skel) (edges skel) →
            r.2 = None → Q c r.1) as Hcover.
  { intros path c Hc r Hpath Hnone.
    eapply (λ H1 H2 H3 H4 H5, for_each_covers
      (trace_path opts binimg origin mapping) (unsampled_are_zero mapping)
      (λ path s, ∀ c, c ∈ to_crop opts origin path → Q c s)
      (skeleton_paths (vertices skel) (edges skel))
      {| areas := replicate n area_zero; contacts := replicate n 0%Z; calls := [] |}
      H1 H2 H3 H4 H5 path Hpath c Hc); [| | | |exact Hnone].
    - intros path' s Hs. by apply trace_path_invariant.
    - intros path1 path2 s Hq c' Hc'.
      apply (trace_path_invariant opts binimg origin mapping (Q c')); [|by apply Hq].
      intros normals iv s'. apply Hmono.
    - intros path' s _ Hs. unfold trace_path.
      destruct (path_normals opts _) as [e|normals]; [done|].
      intros Hret c' Hc'. apply list_elem_of_lookup_1 in Hc' as [i Hi].
      eapply (λ H1 H2 H3 H4 H5 H6, for_each_covers (visit opts binimg mapping normals)
               (unsampled_are_zero mapping) (λ iv s', Q iv.2 s')
               (enumerate (to_crop opts origin path')) s H1 H2 H3 H4 H5 (i, c') H6);
        [| | |exact Hs|exact Hret|].
      + intros iv s'. apply Hinv.
      + intros iv iv' s'. apply Hmono.
      + intros [j v] s' _ Hs' Hnone'. change ((j, v).2) with v. intros Hout.
        destruct (visit_returned opts binimg mapping normals j v s' Hnone' Hout)
          as (idx & Hidx & [(a & Ha & Hnz)|(normal & ->)]).
        * apply visit_calls_grow.
          destruct (decide (v ∈ map fst (calls s'))) as [|Hnot]; [done|].
          destruct (Hs' v idx Hidx Hnot) as (a' & Ha' & Hz). congruence.
        * unfold stored. simpl. rewrite map_app. apply elem_of_app. right.
          by apply list_elem_of_singleton.
      + by apply elem_of_enumerate.
    - intros c' idx Hidx _. simpl.
      apply build_mapping_lookup in Hidx as [Hidx _]. apply lookup_lt_Some in Hidx.
      rewrite length_to_crop in Hidx. exists area_zero.
      split; [by apply lookup_replicate_2 | apply is_zero_area_zero]. }
  destruct (sampling_run _ _ _ _ _ _ _) as [st [e|]] eqn:Hrun; [done|].
  simpl. intros _ path p Hpath Hp Hout.
  apply (Hcover path); try done.
  unfold to_crop. rewrite map_fmap.
  by apply (list_elem_of_fmap_2 (λ p0, sub3 (rasterize (anisotropy opts) p0) origin)).
Qed.

End OrchestratorRuns.

(** ** The crop and the coordinates of the vertices *)

Section CropFacts.
Import Locator Crop Annotate.
Local Open Scope Z_scope.

Lemma clip_inside (n i : Z) : 0 ≤ i ≤ n → clip n i = i.
Proof. intros Hi. unfold clip. destruct (Z.ltb_spec i 0); lia. Qed.

Lemma clip_beyond (n i : Z) : 0 ≤ n → 0 ≤ i → clip n i = Z.min i n.
Proof. intros Hn Hi. unfold clip. destruct (Z.ltb_spec i 0); lia. Qed.

Lemma axis_inside_crop (x0 x1 n v : Z) :
  0 ≤ x0 ≤ x1 → x1 ≤ n → x0 ≤ v < x1 →
  0 ≤ v - Z.max (x0 - 1) 0 < Z.max 0 (Z.min (x1 + 1) n - Z.max (x0 - 1) 0).
Proof. lia. Qed.

(** X14. For a region inside the volume, the crop starts at the lower corner of
    the grown region, which is the corner the coordinates of the vertices
    are taken from: the mask at the crop coordinate of a voxel tells
    whether the volume has the label at that voxel. The crop has a margin
    of one voxel around the region where the volume has one, and every
    voxel of the region lies inside the crop. *)
Theorem crop_frame_is_vertex_frame (all_labels : Volume) (roi : Bbox) (label : Z) :
  0 ≤ px (minpt roi) ≤ px (maxpt roi) → px (maxpt roi) ≤ px (shape all_labels) →
  0 ≤ py (minpt roi) ≤ py (maxpt roi) → py (maxpt roi) ≤ py (shape all_labels) →
  0 ≤ pz (minpt roi) ≤ pz (maxpt roi) → pz (maxpt roi) ≤ pz (shape all_labels) →
  let origin := minpt (grown roi) in
  let binimg := crop_eq all_labels (to_slices (grown roi)) label in
  origin = (Z.max (px (minpt roi) - 1) 0, Z.max (py (minpt roi) - 1) 0,
            Z.max (pz (minpt roi) - 1) 0) ∧
  mshape binimg
  = (Z.min (px (maxpt roi) + 1) (px (shape all_labels)) - px origin,
     Z.min (py (maxpt roi) + 1) (py (shape all_labels)) - py origin,
     Z.min (pz (maxpt roi) + 1) (pz (shape all_labels)) - pz origin) ∧
  (∀ v : coord, mvoxel binimg (sub3 v origin) = (voxel all_labels v =? label)) ∧
  (∀ v : coord,
     px (minpt roi) ≤ px v < px (maxpt roi) →
     py (minpt roi) ≤ py v < py (maxpt roi) →
     pz (minpt roi) ≤ pz v < pz (maxpt roi) →
     0 ≤ px (sub3 v origin) < px (mshape binimg) ∧
     0 ≤ py (sub3 v origin) < py (mshape binimg) ∧
     0 ≤ pz (sub3 v origin) < pz (mshape binimg)).
Proof.
  destruct roi as [[[x0 y0] z0] [[x1 y1] z1]].
  destruct all_labels as [isbool corder [[nx ny] nz] vox].
  unfold px, py, pz. simpl. intros Hx Hx' Hy Hy' Hz Hz'.
  assert (Z.min (Z.max (x0 - 1) 0) (x1 + 1) = Z.max (x0 - 1) 0) as Ex by lia.
  assert (Z.min (Z.max (y0 - 1) 0) (y1 + 1) = Z.max (y0 - 1) 0) as Ey by lia.
  assert (Z.min (Z.max (z0 - 1) 0) (z1 + 1) = Z.max (z0 - 1) 0) as Ez by lia.
  unfold grown, grow, clamp, to_slices, crop_eq, slice_start, slice_length. simpl.
  rewrite Ex, Ey, Ez. simpl.
  rewrite !(clip_inside _ (Z.max _ 0)) by lia.
  rewrite !clip_beyond by lia.
  split; [done|]. split; [f_equal; [f_equal|]; lia|]. split.
  - intros [[vx vy] vz]. simpl. do 2 f_equal. f_equal; [f_equal|]; lia.
  - intros [[vx vy] vz]. simpl. intros Hvx Hvy Hvz.
    split; [|split]; by apply axis_inside_crop.
Qed.

End CropFacts.

(** ** More runs on the small instance *)

Section MoreRuns.
Import Locator Skel Crop Annotate.
Local Open Scope Z_scope.

Lemma crop_frame_is_vertex_frame_witness :
  mshape (crop_eq (renumber Toy.block).1 (to_slices (grown Toy.block_roi)) 1) = (4, 3, 3) ∧
  ∀ v : coord,
    mvoxel (crop_eq (renumber Toy.block).1 (to_slices (grown Toy.block_roi)) 1)
      (sub3 v (minpt (grown Toy.block_roi)))
    = (voxel (renumber Toy.block).1 v =? 1).
Proof.
  destruct (crop_frame_is_vertex_frame (renumber Toy.block).1 Toy.block_roi 1)
    as (_ & Hshape & Hmask & _); try (vm_compute; split; discriminate);
    try (vm_compute; discriminate).
  split; [exact Hshape | exact Hmask].
Defined.

Lemma coordinate_map_keeps_last_index_witness :
  ∃ i, build_mapping [(1, 1, 1); (2, 1, 1); (1, 1, 1)] !! (1, 1, 1) = Some i ∧
       [(1, 1, 1); (2, 1, 1); (1, 1, 1)] !! i = Some (1, 1, 1) ∧
       ∀ j, [(1, 1, 1); (2, 1, 1); (1, 1, 1)] !! j = Some (1, 1, 1) → (j ≤ i)%nat.
Proof.
  apply (coordinate_map_keeps_last_index [(1, 1, 1); (2, 1, 1); (1, 1, 1)] (1, 1, 1)).
  left.
Defined.

Lemma sampler_called_at_vertices_in_crop_witness :
  ∃ k p, vertices (Toy.skeleton 5 Toy.line None None) !! k = Some p ∧
         sub3 (@rasterize coord coord coord Z (Toy.collaborators [Toy.line])
                 Toy.unit_spacing p) (minpt (grown Toy.block_roi)) = (0, 1, 1).
Proof.
  apply (@sampler_called_at_vertices_in_crop coord coord coord Z
           Toy.rows Toy.area (Toy.collaborators [Toy.line])
           (Toy.options Toy.unit_spacing 1 false)
           (renumber Toy.block).1 (renumber Toy.block).2
           (find_objects (renumber Toy.block).1)
           (Toy.skeleton 5 Toy.line None None) 1 Toy.block_roi
           ltac:(vm_compute; reflexivity) (0, 1, 1) (1, 0, 0)).
  vm_compute. left.
Defined.

Lemma normal_mode_exception_leaves_skeleton_witness :
  after (Toy.annotate [Toy.line] Toy.unit_spacing 0 false
           (Toy.skeleton 5 Toy.line None None))
  = Toy.skeleton 5 Toy.line None None.
Proof.
  apply (@normal_mode_exception_leaves_skeleton coord coord coord Z
           Toy.rows Toy.area (Toy.collaborators [Toy.line])).
  - reflexivity.
  - vm_compute. discriminate.
Defined.

Lemma attribute_descriptor_added_once_witness :
  let o := Toy.annotate [Toy.line] Toy.unit_spacing 1 false
             (Toy.skeleton 5 Toy.line None None) in
  extra_attributes (after o) = [] ++ [prop] ∧
  length (filter (λ a : Attribute, attr_id a = "cross_sectional_area")
                 (extra_attributes (after o))) = 1%nat.
Proof.
  destruct (@attribute_descriptor_added_once coord coord coord Z
              Toy.rows Toy.area (Toy.collaborators [Toy.line])
              (Toy.options Toy.unit_spacing 1 false)
              (renumber Toy.block).1 (renumber Toy.block).2
              (find_objects (renumber Toy.block).1)
              (Toy.skeleton 5 Toy.line None None) 1 Toy.block_roi)
    as [_ Hdone].
  - vm_compute. reflexivity.
  - destruct Hdone as (Hadd & _ & Hcount).
    + vm_compute. reflexivity.
    + split; [apply Hadd; reflexivity | exact Hcount].
Defined.

Lemma arrays_keep_their_lengths_witness :
  let o := Toy.annotate [Toy.line] Toy.unit_spacing 1 true
             (Toy.skeleton 5 Toy.line (Some [0; 9]) (Some [3])) in
  ∃ areas1 contacts1,
    Skel.cross_sectional_area (after o) = Some areas1 ∧
    cross_sectional_area_contacts (after o) = Some contacts1 ∧
    length areas1 = 2%nat ∧ length contacts1 = 1%nat.
Proof.
  destruct (@arrays_keep_their_lengths coord coord coord Z
              Toy.rows Toy.area (Toy.collaborators [Toy.line])
              (Toy.options Toy.unit_spacing 1 true)
              (renumber Toy.block).1 (renumber Toy.block).2
              (find_objects (renumber Toy.block).1)
              (Toy.skeleton 5 Toy.line (Some [0; 9]) (Some [3])) 1 Toy.block_roi)
    as [_ Hrepair].
  - vm_compute. reflexivity.
  - apply (Hrepair eq_refl [0; 9] [3]); reflexivity.
Defined.

Lemma background_skeletons_are_skipped_witness :
  Toy.run [Toy.line] Toy.block
    (AsList [Toy.skeleton 0 Toy.line None None; Toy.skeleton 0 Toy.forked None None])
    Toy.unit_spacing 0 true
  = {| after := AsList [Toy.skeleton 0 Toy.line None None;
                        Toy.skeleton 0 Toy.forked None None];
       sampled := []; raised := None |}.
Proof.
  apply (@background_skeletons_are_skipped coord coord coord Z
           Toy.rows Toy.area (Toy.collaborators [Toy.line])).
  - reflexivity.
  - intros skel Hin. simpl in Hin.
    apply elem_of_cons in Hin as [->|Hin]; [reflexivity|].
    apply list_elem_of_singleton in Hin. subst skel. reflexivity.
Defined.

Lemma normal_mode_returns_witness :
  raised (Toy.annotate [Toy.line] Toy.unit_spacing 3 false
            (Toy.skeleton 5 Toy.line None None)) = None.
Proof.
  apply (@normal_mode_returns coord coord coord Z
           Toy.rows Toy.area (Toy.collaborators [Toy.line])
           (Toy.options Toy.unit_spacing 3 false)
           (renumber Toy.block).1 (renumber Toy.block).2
           (find_objects (renumber Toy.block).1)
           (Toy.skeleton 5 Toy.line None None) 1 Toy.block_roi).
  - reflexivity.
  - right. simpl. lia.
  - vm_compute. reflexivity.
  - intros path Hin. simpl in Hin. apply list_elem_of_singleton in Hin. subst path.
    split; [simpl; lia|]. intros p Hp. exists p. split; [exact Hp | reflexivity].
Defined.

Lemma foreign_path_vertex_raises_witness :
  Toy.annotate [[(1, 2, 1); (1, 1, 1)]] Toy.unit_spacing 1 false
    (Toy.skeleton 5 Toy.line None None)
  = {| after := Toy.skeleton 5 Toy.line None None;
       sampled := []; raised := Some KeyError |}.
Proof.
  destruct (@foreign_path_vertex_raises coord coord coord Z
              Toy.rows Toy.area (Toy.collaborators [[(1, 2, 1); (1, 1, 1)]])
              (Toy.options Toy.unit_spacing 1 false)
              (renumber Toy.block).1 (renumber Toy.block).2
              (find_objects (renumber Toy.block).1)
              (Toy.skeleton 5 Toy.line None None) 1 Toy.block_roi
              [(1, 2, 1); (1, 1, 1)] (1, 2, 1))
    as [_ Hfirst].
  - vm_compute. reflexivity.
  - simpl. apply list_elem_of_singleton. reflexivity.
  - left.
  - vm_compute. reflexivity.
  - intros q Hq. simpl in Hq.
    apply elem_of_cons in Hq as [->|Hq]; [vm_compute; discriminate|].
    apply elem_of_cons in Hq as [->|Hq]; [vm_compute; discriminate|].
    apply list_elem_of_singleton in Hq. subst q. vm_compute. discriminate.
  - apply (Hfirst [(1, 1, 1)] []); try reflexivity; try (simpl; lia);
      try (left; reflexivity).
Defined.

Lemma normal_mode_samples_every_path_vertex_witness :
  (2, 1, 1) ∈ map fst (sampled (Toy.annotate [Toy.line] Toy.unit_spacing 1 false
                                 (Toy.skeleton 5 Toy.line None None))).
Proof.
  apply (@normal_mode_samples_every_path_vertex coord coord coord Z
           Toy.rows Toy.area (Toy.collaborators [Toy.line])
           (Toy.options Toy.unit_spacing 1 false)
           (renumber Toy.block).1 (renumber Toy.block).2
           (find_objects (renumber Toy.block).1)
           (Toy.skeleton 5 Toy.line None None) 1 Toy.block_roi
           eq_refl ltac:(vm_compute; reflexivity) ltac:(vm_compute; reflexivity)
           Toy.line (2, 1, 1)).
  - simpl. apply list_elem_of_singleton. reflexivity.
  - right. right. left.
  - vm_compute. reflexivity.
Defined.

Lemma repair_keeps_measured_entries_witness :
  let o := Toy.annotate [Toy.line] Toy.unit_spacing 1 true
             (Toy.skeleton 5 Toy.line (Some [9; 9; 9]) (Some [1; 0; 0])) in
  ∃ areas1 contacts1,
    Skel.cross_sectional_area (after o) = Some areas1 ∧
    cross_sectional_area_contacts (after o) = Some contacts1 ∧
    areas1 !! 1%nat = Some 9 ∧ contacts1 !! 1%nat = Some 0.
Proof.
  apply (@repair_keeps_measured_entries coord coord coord Z
           Toy.rows Toy.area (Toy.collaborators [Toy.line])
           (Toy.options Toy.unit_spacing 1 true)
           (renumber Toy.block).1 (renumber Toy.block).2
           (find_objects (renumber Toy.block).1)
           (Toy.skeleton 5 Toy.line (Some [9; 9; 9]) (Some [1; 0; 0])) 1 Toy.block_roi
           [9; 9; 9] [1; 0; 0] 1%nat 9 0).
  - reflexivity.
  - vm_compute. reflexivity.
  - reflexivity.
  - reflexivity.
  - reflexivity.
  - reflexivity.
  - reflexivity.
  - lia.
Defined.

End MoreRuns.
